(** * card_game.py: a 54-card betting round

    A shallow embedding of [src/card_game.py] and the properties of its deck,
    its scoring functions and its round of play.

    Conventions of the embedding.
    - Python [int] is [Z]; [str] is [string]; [Optional[str]] is
      [option string]; a list is a [list].
    - Money is a Python [float] in the source.  Here it is any type [M] with
      the operations the program applies to it (class [Money]); the one law
      asked of every instance, [0 == 0], holds of floats.  The instances are
      binary64 floats ([float_money]), which is what the program runs on, and
      [Z] (whole dollars), an exact arithmetic.  The laws of exact arithmetic
      are a class of their own ([ExactMoney]); floats are no instance of it.
    - A raised exception is the [Raise] case of [result]; [main] catches
      nothing, so nothing is observed of the players after a raise.
    - [input] and [print] act on a [world]: the lines still to be read and the
      texts written so far. *)

From Stdlib Require Import ZArith List String Ascii Bool Lia DecimalString.
From Stdlib Require Import Permutation.
From Stdlib Require Import PrimFloat.
From Stdlib Require FloatOps SpecFloat Uint63.
Import ListNotations.

Open Scope string_scope.
Open Scope Z_scope.

Set Implicit Arguments.

(** ** Exceptions *)

Inductive exn : Type :=
| ValueError (msg : string)
| IndexError (msg : string)
| EOFError.

Inductive result (A : Type) : Type :=
| Ok (a : A)
| Raise (e : exn).

Arguments Ok {A} a.
Arguments Raise {A} e.

Definition is_ok {A} (r : result A) : bool :=
  match r with Ok _ => true | Raise _ => false end.

(** ** Python built-ins on integers, strings and lists *)

(** [str(n)] for an [int]. *)
Definition str (n : Z) : string := NilZero.string_of_int (Z.to_int n).

(** [range(a, b)]. *)
Definition range (a b : Z) : list Z :=
  map (fun i => a + Z.of_nat i) (seq 0 (Z.to_nat (b - a))).

(** The position a slice bound [k] denotes in a list of [len] elements: a
    negative bound counts from the end, and every bound is clamped to
    [0..len]. *)
Definition slice_bound (len : nat) (k : Z) : nat :=
  if k <? 0 then Z.to_nat (Z.of_nat len + k)
  else Nat.min (Z.to_nat k) len.

(** [l[:k]] and [l[k:]]. *)
Definition slice_to {A} (l : list A) (k : Z) : list A :=
  firstn (slice_bound (List.length l) k) l.

Definition slice_from {A} (l : list A) (k : Z) : list A :=
  skipn (slice_bound (List.length l) k) l.

(** [l[0]]. *)
Definition item0 {A} (l : list A) : result A :=
  match l with
  | x :: _ => Ok x
  | [] => Raise (IndexError "list index out of range")
  end.

(** ** Cards *)

Definition SUITS : list string := ["♠"; "♥"; "♦"; "♣"].
Definition RANKS : list string := (["A"] ++ map str (range 2 11) ++ ["J"; "Q"; "K"])%list.
Definition JOKER : string := "JOKER".

Record Card : Type := mkCard {
  rank : string;
  suit : option string   (* Jokers have no suit *)
}.

Definition Card_eqb (c d : Card) : bool :=
  (rank c =? rank d)%string
  && match suit c, suit d with
     | Some s, Some t => (s =? t)%string
     | None, None => true
     | _, _ => false
     end.

(** The built-ins whose algorithm the program does not contain: [int(s)] on a
    string ([None] when it raises [ValueError]) and
    [random.Random(seed).shuffle].  With [seed = None] Python seeds the
    generator from the operating system: [py_shuffle None] stands for the
    permutation of the one run at hand, so a statement about a single run
    holds at [None] too, and two runs are compared at a given seed [Some s]
    only. *)
Class Builtins : Type := {
  py_int : string -> option Z;
  py_shuffle : option Z -> list Card -> list Card
}.

(** What the program relies on from them. *)
Definition int_reads_ranks `{Builtins} : Prop :=
  forall n, 2 <= n <= 10 -> py_int (str n) = Some n.

Definition shuffle_permutes `{Builtins} : Prop :=
  forall seed l, Permutation l (py_shuffle seed l).

Section Cards.
Context `{Builtins}.

Definition int (s : string) : result Z :=
  match py_int s with
  | Some n => Ok n
  | None => Raise (ValueError ("invalid literal for int() with base 10: '" ++ s ++ "'"))
  end.

(** [Card.value] *)
Definition value (self : Card) : result Z :=
  if (rank self =? JOKER)%string then Ok 0   (* Special handling elsewhere *)
  else if (rank self =? "A")%string then Ok 11
  else if existsb (String.eqb (rank self)) ["K"; "Q"; "J"] then Ok 10
  else int (rank self).

(** [Card.__str__]; an f-string renders a missing suit as [None]. *)
Definition Card_str (self : Card) : string :=
  if (rank self =? JOKER)%string then rank self
  else rank self ++ match suit self with Some s => s | None => "None" end.

(** [sum(f(c) for c in l)], started at [acc]: the generator is consumed from
    the left and the first raise ends it. *)
Fixpoint sum_from (acc : Z) (f : Card -> result Z) (l : list Card) : result Z :=
  match l with
  | [] => Ok acc
  | c :: l' =>
      match f c with
      | Ok v => sum_from (acc + v) f l'
      | Raise e => Raise e
      end
  end.

Definition not_joker (card : Card) : bool := negb (rank card =? JOKER)%string.

Definition score_hand (hand : list Card) : result Z :=
  sum_from 0 value (filter not_joker hand).

Definition hand_has_joker (hand : list Card) : bool :=
  existsb (fun card => (rank card =? JOKER)%string) hand.

End Cards.

(** ** The deck *)

Record Deck : Type := mkDeck { cards : list Card }.

(** [Deck.__init__]: suits in the outer loop, ranks in the inner one, then two
    jokers. *)
Definition Deck_init : Deck :=
  mkDeck ((flat_map (fun s => map (fun r => mkCard r (Some s)) RANKS) SUITS
           ++ [mkCard JOKER None])
          ++ [mkCard JOKER None])%list.

Definition Deck_shuffle `{Builtins} (self : Deck) (seed : option Z) : Deck :=
  mkDeck (py_shuffle seed (cards self)).

(** [Deck.draw]: the result and the deck afterwards. *)
Definition Deck_draw (self : Deck) (count : Z) : result (list Card) * Deck :=
  if Z.of_nat (List.length (cards self)) <? count
  then (Raise (ValueError "Not enough cards to draw"), self)
  else (Ok (slice_to (cards self) count), mkDeck (slice_from (cards self) count)).

(** ** Money *)

(** The operations the program applies to monetary amounts.  [a > b] is read
    as [b < a].  The one law, that zero compares equal to itself, holds of
    floats. *)
Class Money (M : Type) : Type := {
  zero : M;
  m_add : M -> M -> M;
  m_sub : M -> M -> M;
  m_mul : M -> Z -> M;
  m_ltb : M -> M -> bool;
  m_eqb : M -> M -> bool;
  fmt0 : M -> string;   (* the format [:.0f] *)
  fmt2 : M -> string;   (* the format [:.2f] *)
  m_zero_eqb : m_eqb zero zero = true
}.

Declare Scope money_scope.
Delimit Scope money_scope with money.
Infix "+$" := m_add (at level 50, left associativity) : money_scope.
Infix "-$" := m_sub (at level 50, left associativity) : money_scope.
Infix "*$" := m_mul (at level 40, left associativity) : money_scope.
Infix "<$" := m_ltb (at level 65, no associativity) : money_scope.
Infix "==$" := m_eqb (at level 65, no associativity) : money_scope.
Open Scope money_scope.

(** The laws of an exact arithmetic: subtracting or adding zero changes
    nothing, and [x == 0] holds of zero only.  Floats break the last two
    ([-0.0 + 0.0] is [+0.0], and [-0.0 == 0]). *)
Class ExactMoney (M : Type) `{Money M} : Prop := {
  m_sub_zero : forall x, x -$ zero = x;
  m_add_zero : forall x, x +$ zero = x;
  m_eqb_zero : forall x, x ==$ zero = true <-> x = zero
}.

(** ** Standard input and output *)

(** A line of standard input as [prompt_bet] classifies it: nothing is left
    after [strip()], [float(raw)] raises [ValueError], or [float(raw)] is
    [value]. *)
Inductive entry (M : Type) : Type :=
| Empty
| Invalid
| Amount (value : M).

Arguments Empty {M}.
Arguments Invalid {M}.
Arguments Amount {M} value.

(** [stdout] holds the text of each [print] call and of each [input] prompt,
    oldest first. *)
Record world (M : Type) : Type := mkWorld {
  stdin : list (entry M);
  stdout : list string
}.

Definition io (M A : Type) : Type := world M -> result A * world M.

Definition ret {M A} (a : A) : io M A := fun w => (Ok a, w).

Definition bind {M A B} (c : io M A) (k : A -> io M B) : io M B :=
  fun w =>
    match c w with
    | (Ok a, w') => k a w'
    | (Raise e, w') => (Raise e, w')
    end.

Definition lift {M A} (r : result A) : io M A := fun w => (r, w).

Definition print {M} (text : string) : io M unit :=
  fun w => (Ok tt, mkWorld (stdin w) (stdout w ++ [text])).

Notation "x <- c ;; k" := (bind c (fun x => k))
  (at level 61, c at next level, right associativity).
Notation "c ;;; k" := (bind c (fun _ => k))
  (at level 61, right associativity).

Definition newline : string := String (ascii_of_nat 10) "".

(** ** Players *)

Record Player (M : Type) : Type := mkPlayer {
  name : string;
  bankroll : M;
  hand : list Card;
  ante_paid : M;
  bet : M;
  outcome : string;
  payout : M
}.

Section Game.
Context {M : Type} `{Money M} `{Builtins}.

Definition set_bankroll (p : Player M) (x : M) : Player M :=
  mkPlayer (name p) x (hand p) (ante_paid p) (bet p) (outcome p) (payout p).
Definition set_hand (p : Player M) (h : list Card) : Player M :=
  mkPlayer (name p) (bankroll p) h (ante_paid p) (bet p) (outcome p) (payout p).
Definition set_ante_paid (p : Player M) (x : M) : Player M :=
  mkPlayer (name p) (bankroll p) (hand p) x (bet p) (outcome p) (payout p).
Definition set_bet (p : Player M) (x : M) : Player M :=
  mkPlayer (name p) (bankroll p) (hand p) (ante_paid p) x (outcome p) (payout p).
Definition set_outcome (p : Player M) (s : string) : Player M :=
  mkPlayer (name p) (bankroll p) (hand p) (ante_paid p) (bet p) s (payout p).
Definition set_payout (p : Player M) (x : M) : Player M :=
  mkPlayer (name p) (bankroll p) (hand p) (ante_paid p) (bet p) (outcome p) x.

(** [Player.reset_round] *)
Definition reset_round (self : Player M) : Player M :=
  mkPlayer (name self) (bankroll self) [] zero zero "" zero.

(** [Player.pay] *)
Definition pay (self : Player M) (amount : M) : result (Player M) :=
  if bankroll self <$ amount
  then Raise (ValueError (name self ++ " cannot cover $" ++ fmt2 amount))
  else Ok (set_bankroll self (bankroll self -$ amount)).

(** [Player.credit] *)
Definition credit (self : Player M) (amount : M) : Player M :=
  set_bankroll self (bankroll self +$ amount).

(** ** Asking for a bet *)

Definition bet_prompt (player : Player M) (max_bet : M) : string :=
  "Bet for " ++ name player ++ " (0 to skip, max $" ++ fmt0 max_bet ++ "): ".

(** The [while True] loop of [prompt_bet], by recursion on the lines left on
    standard input; [input] raises [EOFError] when none is left. *)
Fixpoint prompt_bet_loop (player : Player M) (max_bet : M)
    (lines : list (entry M)) (out : list string) : result M * world M :=
  match lines with
  | [] => (Raise EOFError, mkWorld [] (out ++ [bet_prompt player max_bet]))
  | raw :: rest =>
      let out := (out ++ [bet_prompt player max_bet])%list in
      match raw with
      | Empty => (Ok zero, mkWorld rest out)
      | Invalid =>
          prompt_bet_loop player max_bet rest (out ++ ["Please enter a number."])
      | Amount value =>
          if value <$ zero then
            prompt_bet_loop player max_bet rest (out ++ ["Bet cannot be negative."])
          else if max_bet <$ value then
            prompt_bet_loop player max_bet rest
              (out ++ ["Bet cannot exceed $" ++ fmt0 max_bet ++ "."])
          else if bankroll player <$ value then
            prompt_bet_loop player max_bet rest
              (out ++ ["Insufficient funds. Available: $" ++ fmt2 (bankroll player)])
          else (Ok value, mkWorld rest out)
      end
  end.

Definition prompt_bet (player : Player M) (max_bet : M) : io M M :=
  fun w => prompt_bet_loop player max_bet (stdin w) (stdout w).

(** ** The round *)

(** Lines 163-177 of [play_round]: the payout of a player who has bet. *)
Definition settle (player : Player M) : io M (Player M) :=
  if hand_has_joker (hand player) then
    let win_amount := bet player *$ 3 in
    let player := credit player win_amount in
    let player := set_payout player win_amount in
    ret (set_outcome player ("Joker! Wins $" ++ fmt2 win_amount ++ " (3x bet)."))
  else
    total <- lift (score_hand (hand player)) ;;
    print ("Total score: " ++ str total) ;;;
    if 32 <=? total then
      let win_amount := bet player *$ 2 in
      let player := credit player win_amount in
      let player := set_payout player win_amount in
      ret (set_outcome player
             ("Win! Score " ++ str total ++ " pays $" ++ fmt2 win_amount ++ " (2x bet)."))
    else
      ret (set_outcome player ("Lose. Score " ++ str total ++ " below 32.")).

(** The body of the second loop of [play_round], for one player. *)
Definition play_turn (max_bet ante : M) (player : Player M) : io M (Player M) :=
  if bankroll player <$ ante then
    ret (set_outcome player "Cannot cover ante; skipped.")
  else
    player <- lift (pay player ante) ;;
    let player := set_ante_paid player ante in
    print (newline ++ name player ++ " pays ante $" ++ fmt2 ante
           ++ ". Bankroll now $" ++ fmt2 (bankroll player) ++ ".") ;;;
    (* Reveal first card *)
    first_card <- lift (item0 (hand player)) ;;
    print ("First card for " ++ name player ++ ": " ++ Card_str first_card) ;;;
    v <- prompt_bet player max_bet ;;
    let player := set_bet player v in
    if bet player ==$ zero then
      ret (set_outcome player "No bet placed; round ended.")
    else
      player <- lift (pay player (bet player)) ;;
      print (name player ++ " bets $" ++ fmt2 (bet player)
             ++ ". Bankroll now $" ++ fmt2 (bankroll player) ++ ".") ;;;
      (* Reveal remaining cards *)
      let remaining := slice_from (hand player) 1 in
      let remaining_str := String.concat ", " (map Card_str remaining) in
      print ("Remaining cards: " ++ remaining_str) ;;;
      player <- settle player ;;
      print (outcome player) ;;;
      print (name player ++ " bankroll: $" ++ fmt2 (bankroll player)) ;;;
      ret player.

(** The first loop of [play_round]: every player is reset and dealt four
    cards from the one deck. *)
Fixpoint deal (deck : Deck) (players : list (Player M))
    : result (list (Player M)) * Deck :=
  match players with
  | [] => (Ok [], deck)
  | player :: rest =>
      let player := reset_round player in
      match Deck_draw deck 4 with
      | (Ok drawn, deck) =>
          let player := set_hand player drawn in
          match deal deck rest with
          | (Ok rest, deck) => (Ok (player :: rest), deck)
          | (Raise e, deck) => (Raise e, deck)
          end
      | (Raise e, deck) => (Raise e, deck)
      end
  end.

(** The second loop. *)
Fixpoint play_turns (max_bet ante : M) (players : list (Player M))
    : io M (list (Player M)) :=
  match players with
  | [] => ret []
  | player :: rest =>
      player <- play_turn max_bet ante player ;;
      rest <- play_turns max_bet ante rest ;;
      ret (player :: rest)
  end.

(** [play_round]; the players are mutated in place in the source and are
    returned here. *)
Definition play_round (players : list (Player M)) (max_bet ante : M)
    (seed : option Z) : io M (list (Player M)) :=
  let deck := Deck_init in
  let deck := Deck_shuffle deck seed in
  players <- lift (fst (deal deck players)) ;;
  play_turns max_bet ante players.

End Game.

(** ** Instances for concrete runs *)

(** Whole dollars. *)
Definition Z_money : Money Z := {|
  zero := 0;
  m_add := Z.add;
  m_sub := Z.sub;
  m_mul := Z.mul;
  m_ltb := Z.ltb;
  m_eqb := Z.eqb;
  fmt0 := str;
  fmt2 := fun x => str x ++ ".00";
  m_zero_eqb := eq_refl
|}.

Lemma Z_money_exact : @ExactMoney Z Z_money.
Proof.
  split; simpl; intros x.
  - apply Z.sub_0_r.
  - apply Z.add_0_r.
  - apply Z.eqb_eq.
Qed.

(** [int] reading plain decimal numerals, and a stand-in for the shuffle that
    reverses the deck, so that the jokers are dealt first. *)
Definition demo_builtins : Builtins := {|
  py_int := fun s => option_map Z.of_int (NilZero.int_of_string s);
  py_shuffle := fun _ l => rev l
|}.

(** ** Binary64 floats, the program's own arithmetic *)

(** [float(k)] for an [int] below [2^63] in size: what [bet * 3] makes of
    the 3. *)
Definition float_of_int (k : Z) : float :=
  if k <? 0 then PrimFloat.opp (PrimFloat.of_uint63 (Uint63.of_Z (- k)))
  else PrimFloat.of_uint63 (Uint63.of_Z k).

(** [num / den] rounded to the nearest integer, a tie to the even one. *)
Definition round_half_even (num den : Z) : Z :=
  let q := num / den in
  let r := num mod den in
  if 2 * r <? den then q
  else if den <? 2 * r then q + 1
  else if Z.even q then q else q + 1.

Fixpoint zeros (n : nat) : string :=
  match n with
  | O => ""
  | S n' => "0" ++ zeros n'
  end.

(** The format [:.df] of a float: its exact binary value rounded to [d]
    decimals, a tie to the even digit; the sign is kept when the digits are
    all zero. *)
Definition fmt_float (d : nat) (x : float) : string :=
  match FloatOps.Prim2SF x with
  | SpecFloat.S754_nan => "nan"
  | SpecFloat.S754_infinity s => if s then "-inf" else "inf"
  | SpecFloat.S754_zero s =>
      (if s then "-" else "") ++ "0"
      ++ match d with O => "" | _ => "." ++ zeros d end
  | SpecFloat.S754_finite s m e =>
      let scale := 10 ^ Z.of_nat d in
      let n := if 0 <=? e then Z.pos m * 2 ^ e * scale
               else round_half_even (Z.pos m * scale) (2 ^ (- e)) in
      let frac := str (n mod scale) in
      (if s then "-" else "") ++ str (n / scale)
      ++ match d with
         | O => ""
         | _ => "." ++ zeros (d - String.length frac) ++ frac
         end
  end.

Definition float_money : Money float := {|
  zero := 0%float;
  m_add := PrimFloat.add;
  m_sub := PrimFloat.sub;
  m_mul := fun x k => PrimFloat.mul x (float_of_int k);
  m_ltb := PrimFloat.ltb;
  m_eqb := PrimFloat.eqb;
  fmt0 := fmt_float 0;
  fmt2 := fmt_float 2;
  m_zero_eqb := eq_refl
|}.

(** The exact value of a float, scaled: the integer [x * 2^k] when [x] is
    finite and that product is an integer. *)
Definition scaled (k : Z) (x : float) : option Z :=
  match FloatOps.Prim2SF x with
  | SpecFloat.S754_zero _ => Some 0
  | SpecFloat.S754_finite s m e =>
      let sign := if s then -1 else 1 in
      if 0 <=? e + k then Some (sign * (Z.pos m * 2 ^ (e + k)))
      else if Z.pos m mod 2 ^ (- (e + k)) =? 0
           then Some (sign * (Z.pos m / 2 ^ (- (e + k))))
           else None
  | _ => None
  end.

(** Three players with a bankroll of 1e17 who bet 10, 20 and 10 against an
    ante of 5, and three with the default bankroll of 200 of whom the third
    bets 0.1; with the deck reversed the third player of a round loses. *)
Definition big_players : list (Player float) :=
  [ mkPlayer "Ann" 1e17%float [] 0%float 0%float "" 0%float;
    mkPlayer "Bob" 1e17%float [] 0%float 0%float "" 0%float;
    mkPlayer "Cy" 1e17%float [] 0%float 0%float "" 0%float ].

Definition big_round : result (list (Player float)) * world float :=
  @play_round float float_money demo_builtins big_players 50%float 5%float None
    (mkWorld [Amount 10%float; Amount 20%float; Amount 10%float] []).

Definition dime : float := Eval vm_compute in PrimFloat.div 1%float 10%float.

Definition dime_players : list (Player float) :=
  [ mkPlayer "Ann" 200%float [] 0%float 0%float "" 0%float;
    mkPlayer "Bob" 200%float [] 0%float 0%float "" 0%float;
    mkPlayer "Cy" 200%float [] 0%float 0%float "" 0%float ].

Definition dime_round : result (list (Player float)) * world float :=
  @play_round float float_money demo_builtins dime_players 50%float 5%float None
    (mkWorld [Amount 10%float; Amount 20%float; Amount dime] []).

(** One player with a bankroll of 1e17 who answers the prompt with "-0". *)
Definition minus_zero_round : result (list (Player float)) * world float :=
  @play_round float float_money demo_builtins
    [mkPlayer "Ann" 1e17%float [] 0%float 0%float "" 0%float]
    50%float 5%float None (mkWorld [Amount (-0)%float] []).

(** The players a round leaves, none when it raises. *)
Definition players_left {M} (r : result (list (Player M)) * world M)
    : list (Player M) :=
  match fst r with
  | Ok ps => ps
  | Raise _ => []
  end.

Definition big_result : list (Player float) :=
  Eval vm_compute in players_left big_round.

Definition dime_result : list (Player float) :=
  Eval vm_compute in players_left dime_round.

Definition minus_zero_result : list (Player float) :=
  Eval vm_compute in players_left minus_zero_round.

(** A round of five players, bets of at most 50 and an ante of 5.  The third
    line read (500) exceeds the maximum, the second last is no number and the
    last one is empty. *)
Definition demo_players : list (Player Z) :=
  [ mkPlayer "Ann" 200 [] 0 0 "" 0;
    mkPlayer "Bob" 200 [] 0 0 "" 0;
    mkPlayer "Cy" 200 [] 0 0 "" 0;
    mkPlayer "Dee" 3 [] 0 0 "" 0;
    mkPlayer "Eve" 200 [] 0 0 "" 0 ].

Definition demo_world : world Z :=
  mkWorld [Amount 10; Amount 20; Amount 500; Amount 5; Invalid; Empty] [].

Definition demo_round : result (list (Player Z)) * world Z :=
  @play_round Z Z_money demo_builtins demo_players 50 5 None demo_world.

(** The players that round leaves. *)
Definition demo_result : list (Player Z) :=
  [ mkPlayer "Ann" 215
      [mkCard "JOKER" None; mkCard "JOKER" None;
       mkCard "K" (Some "♣"); mkCard "Q" (Some "♣")]
      5 10 "Joker! Wins $30.00 (3x bet)." 30;
    mkPlayer "Bob" 215
      [mkCard "J" (Some "♣"); mkCard "10" (Some "♣");
       mkCard "9" (Some "♣"); mkCard "8" (Some "♣")]
      5 20 "Win! Score 37 pays $40.00 (2x bet)." 40;
    mkPlayer "Cy" 190
      [mkCard "7" (Some "♣"); mkCard "6" (Some "♣");
       mkCard "5" (Some "♣"); mkCard "4" (Some "♣")]
      5 5 "Lose. Score 22 below 32." 0;
    mkPlayer "Dee" 3
      [mkCard "3" (Some "♣"); mkCard "2" (Some "♣");
       mkCard "A" (Some "♣"); mkCard "K" (Some "♦")]
      0 0 "Cannot cover ante; skipped." 0;
    mkPlayer "Eve" 195
      [mkCard "Q" (Some "♦"); mkCard "J" (Some "♦");
       mkCard "10" (Some "♦"); mkCard "9" (Some "♦")]
      5 0 "No bet placed; round ended." 0 ].

(** The fifth player before her turn, and a standard input that holds a line
    that is no number and an empty one. *)
Definition demo_eve : Player Z :=
  mkPlayer "Eve" 200
    [mkCard "Q" (Some "♦"); mkCard "J" (Some "♦");
     mkCard "10" (Some "♦"); mkCard "9" (Some "♦")]
    0 0 "" 0.

Definition demo_lines : world Z := mkWorld [Invalid; Empty] [].

(** ** Definitions used to state the properties *)

Definition Zsum (l : list Z) : Z := fold_right Z.add 0 l.

(** The value table in the words of the specification: 11 for A, 10 for J, Q
    and K, the number for 2 to 10; no other rank has points. *)
Definition spec_points (r : string) : Z :=
  match find (fun entry => (fst entry =? r)%string)
          [("A", 11); ("J", 10); ("Q", 10); ("K", 10);
           ("2", 2); ("3", 3); ("4", 4); ("5", 5); ("6", 6);
           ("7", 7); ("8", 8); ("9", 9); ("10", 10)] with
  | Some entry => snd entry
  | None => 0
  end.

(** The cards of a hand that are no jokers, one card after the other. *)
Fixpoint spec_non_jokers (hand : list Card) : list Card :=
  match hand with
  | [] => []
  | c :: rest =>
      if (rank c =? "JOKER")%string then spec_non_jokers rest
      else c :: spec_non_jokers rest
  end.

(** A card of the game: its rank is one of the thirteen ranks or the joker. *)
Definition game_card (c : Card) : Prop := In (rank c) (JOKER :: RANKS).

(** No two cards of the list are equal. *)
Fixpoint distinct_cards (l : list Card) : bool :=
  match l with
  | [] => true
  | c :: l' => negb (existsb (Card_eqb c) l') && distinct_cards l'
  end.

Definition joker_card : Card := mkCard JOKER None.

(** What is said of [Deck.draw(count)] on the deck [d], read literally: it
    raises exactly when [count] exceeds the cards left, and then leaves the
    deck alone; otherwise the cards returned are [count] in number, they are
    the front of the deck and the deck keeps the rest, no card is returned
    twice and none that is returned stays in the deck. *)
Definition draw_as_stated (d : Deck) (count : Z) : Prop :=
  let (r, d') := Deck_draw d count in
  (is_ok r = false <-> Z.of_nat (List.length (cards d)) < count)
  /\ (is_ok r = false -> d' = d)
  /\ (forall drawn, r = Ok drawn ->
        Z.of_nat (List.length drawn) = count
        /\ (drawn ++ cards d')%list = cards d
        /\ NoDup drawn
        /\ (forall c, In c drawn -> ~ In c (cards d'))).

(** What is said of [draw(n)] followed by [draw(m)], read literally. *)
Definition two_draws_as_stated (d : Deck) (n m : Z) : Prop :=
  n + m <= Z.of_nat (List.length (cards d)) ->
  exists a d1 b d2 ab d3,
    Deck_draw d n = (Ok a, d1)
    /\ Deck_draw d1 m = (Ok b, d2)
    /\ Deck_draw d (n + m) = (Ok ab, d3)
    /\ (forall c, In c a -> ~ In c b)
    /\ (a ++ b)%list = ab.

Section Stages.
Context {M : Type} `{Money M} `{Builtins}.

(** The player once the ante is paid and recorded. *)
Definition after_ante (ante : M) (player : Player M) : Player M :=
  set_ante_paid (set_bankroll player (bankroll player -$ ante)) ante.

(** The world once the ante and the first card are announced: the one in
    which [prompt_bet] is called. *)
Definition announced (ante : M) (player : Player M) (first_card : Card)
    (w : world M) : world M :=
  let player := after_ante ante player in
  mkWorld (stdin w)
    ((stdout w
      ++ [newline ++ name player ++ " pays ante $" ++ fmt2 ante
          ++ ". Bankroll now $" ++ fmt2 (bankroll player) ++ "."])
     ++ ["First card for " ++ name player ++ ": " ++ Card_str first_card]).

(** The player once the bet [v] is recorded and paid. *)
Definition after_bet (ante v : M) (player : Player M) : Player M :=
  let player := set_bet (after_ante ante player) v in
  set_bankroll player (bankroll player -$ v).

(** The world once the bet and the remaining cards are announced: the one in
    which the payout is determined. *)
Definition revealed (ante v : M) (player : Player M) (w : world M) : world M :=
  let player := after_bet ante v player in
  mkWorld (stdin w)
    ((stdout w
      ++ [name player ++ " bets $" ++ fmt2 (bet player)
          ++ ". Bankroll now $" ++ fmt2 (bankroll player) ++ "."])
     ++ ["Remaining cards: "
         ++ String.concat ", " (map Card_str (slice_from (hand player) 1))]).

(** The world once the outcome and the bankroll of [player] are printed. *)
Definition summed_up (player : Player M) (w : world M) : world M :=
  mkWorld (stdin w)
    ((stdout w ++ [outcome player])
     ++ [name player ++ " bankroll: $" ++ fmt2 (bankroll player)]).

(** The hand dealt to the player at position [i] of the list: the four cards
    of the shuffled deck from position [4 * i] on. *)
Definition dealt_hand (seed : option Z) (i : nat) : list Card :=
  firstn 4 (skipn (4 * i) (cards (Deck_shuffle Deck_init seed))).

(** The player at position [i] once the cards are dealt. *)
Definition dealt (seed : option Z) (i : nat) (player : Player M) : Player M :=
  set_hand (reset_round player) (dealt_hand seed i).

(** The five ways a turn can end, and what each leaves of the player [p]
    in [p']. *)
Inductive branch : Type :=
| Skipped
| NoBet
| JokerWin
| ScoreWin (total : Z)
| Lose (total : Z).

Definition turn_took (ante : M) (p p' : Player M) (br : branch) : Prop :=
  match br with
  | Skipped =>
      bankroll p <$ ante = true
      /\ p' = set_outcome p "Cannot cover ante; skipped."
  | NoBet =>
      bankroll p <$ ante = false
      /\ exists v,
           v ==$ zero = true
           /\ p' = set_outcome (set_bet (after_ante ante p) v)
                     "No bet placed; round ended."
  | JokerWin =>
      bankroll p <$ ante = false
      /\ exists v,
           v ==$ zero = false
           /\ hand_has_joker (hand p) = true
           /\ p' = set_outcome
                     (set_payout (credit (after_bet ante v p) (v *$ 3)) (v *$ 3))
                     ("Joker! Wins $" ++ fmt2 (v *$ 3) ++ " (3x bet).")
  | ScoreWin total =>
      bankroll p <$ ante = false
      /\ exists v,
           v ==$ zero = false
           /\ hand_has_joker (hand p) = false
           /\ score_hand (hand p) = Ok total
           /\ 32 <= total
           /\ p' = set_outcome
                     (set_payout (credit (after_bet ante v p) (v *$ 2)) (v *$ 2))
                     ("Win! Score " ++ str total ++ " pays $"
                      ++ fmt2 (v *$ 2) ++ " (2x bet).")
  | Lose total =>
      bankroll p <$ ante = false
      /\ exists v,
           v ==$ zero = false
           /\ hand_has_joker (hand p) = false
           /\ score_hand (hand p) = Ok total
           /\ total < 32
           /\ p' = set_outcome (after_bet ante v p)
                     ("Lose. Score " ++ str total ++ " below 32.")
  end.

(** What each branch leaves of the bankroll, in the program's own operations
    taken from left to right; a zero that the branch neither subtracts nor
    adds is left out. *)
Definition accounted (start : M) (p' : Player M) (br : branch) : Prop :=
  match br with
  | Skipped =>
      bankroll p' = start
      /\ ante_paid p' = zero /\ bet p' = zero /\ payout p' = zero
  | NoBet =>
      bankroll p' = start -$ ante_paid p'
      /\ bet p' ==$ zero = true /\ payout p' = zero
  | JokerWin | ScoreWin _ =>
      bankroll p' = start -$ ante_paid p' -$ bet p' +$ payout p'
  | Lose _ =>
      bankroll p' = start -$ ante_paid p' -$ bet p'
      /\ payout p' = zero
  end.

End Stages.

(** The accounting identity read of exact values: with every amount scaled by
    [2^k] to an integer, the final bankroll is the starting one minus
    [ante_paid] minus [bet] plus [payout]. *)
Definition exact_accounting (k : Z) (start : float) (p' : Player float) : Prop :=
  exists b0 b a v w,
    scaled k start = Some b0
    /\ scaled k (bankroll p') = Some b
    /\ scaled k (ante_paid p') = Some a
    /\ scaled k (bet p') = Some v
    /\ scaled k (payout p') = Some w
    /\ b = b0 - a - v + w.

(** ** The program *)

(** The namespace [parse_args] returns. *)
Record Args (M : Type) : Type := mkArgs {
  arg_players : list string;
  arg_max_bet : M;
  arg_bankroll : M;
  arg_ante : option M;
  arg_seed : option Z
}.

Section Program.
Context {M : Type} `{Money M} `{Builtins}.

(** The product [x * 0.10], which is none of the operations of [Money]. *)
Variable times_0_10 : M -> M.

(** The line [main] prints for one player; [p.outcome or 'Skipped'] takes the
    second text when the outcome is the empty string. *)
Definition summary_line (p : Player M) : string :=
  "- " ++ name p ++ ": "
  ++ (if (outcome p =? "")%string then "Skipped" else outcome p) ++ " | "
  ++ "Bet $" ++ fmt2 (bet p) ++ " | Ante $" ++ fmt2 (ante_paid p) ++ " | "
  ++ "Payout $" ++ fmt2 (payout p) ++ " | Bankroll $" ++ fmt2 (bankroll p).

(** [for p in players: print(...)] *)
Fixpoint print_summary (players : list (Player M)) : io M unit :=
  match players with
  | [] => ret tt
  | p :: rest => print (summary_line p) ;;; print_summary rest
  end.

(** [main], from the parsed arguments on. *)
Definition main (args : Args M) : io M unit :=
  let ante :=
    match arg_ante args with
    | Some ante => ante
    | None => times_0_10 (arg_max_bet args)
    end in
  let players :=
    map (fun p => mkPlayer p (arg_bankroll args) [] zero zero "" zero)
        (arg_players args) in
  players <- play_round players (arg_max_bet args) ante (arg_seed args) ;;
  print (newline ++ "Round summary:") ;;;
  print_summary players.

End Program.

(** ** More definitions used to state properties *)

(** Amounts that are not below zero stay so under the operations of a round:
    [b - a] when [a] does not exceed [b], sums, and products by a count. *)
Class MoneyOrder (M : Type) `{Money M} : Prop := {
  m_sub_nonneg : forall a b, b <$ a = false -> (b -$ a) <$ zero = false;
  m_add_nonneg : forall x y,
    x <$ zero = false -> y <$ zero = false -> (x +$ y) <$ zero = false;
  m_mul_nonneg : forall x k, 0 <= k -> x <$ zero = false -> (x *$ k) <$ zero = false
}.

Lemma Z_money_order : @MoneyOrder Z Z_money.
Proof.
  split; simpl; intros.
  - apply Z.ltb_ge. apply Z.ltb_ge in H. lia.
  - apply Z.ltb_ge. apply Z.ltb_ge in H, H0. lia.
  - apply Z.ltb_ge. apply Z.ltb_ge in H0. nia.
Qed.

Section Statements.
Context {M : Type} `{Money M} `{Builtins}.

(** The lines [prompt_bet] accepts from [player]: an empty one, or an amount
    that is not negative and exceeds neither the maximum nor the bankroll. *)
Definition acceptable (player : Player M) (max_bet : M) (raw : entry M) : bool :=
  match raw with
  | Empty => true
  | Invalid => false
  | Amount v =>
      negb (v <$ zero) && negb (max_bet <$ v) && negb (bankroll player <$ v)
  end.

(** The bet an accepted line stands for. *)
Definition entry_value (raw : entry M) : M :=
  match raw with
  | Amount v => v
  | _ => zero
  end.

(** [w'] comes after [w]: some lines were read from the front of standard
    input and some texts were added at the end of standard output. *)
Definition comes_after (w w' : world M) : Prop :=
  (exists consumed, stdin w = (consumed ++ stdin w')%list)
  /\ (exists printed, stdout w' = (stdout w ++ printed)%list).

(** The summary line with the outcome as it is. *)
Definition summary_with_outcome (p : Player M) : string :=
  "- " ++ name p ++ ": " ++ outcome p ++ " | "
  ++ "Bet $" ++ fmt2 (bet p) ++ " | Ante $" ++ fmt2 (ante_paid p) ++ " | "
  ++ "Payout $" ++ fmt2 (payout p) ++ " | Bankroll $" ++ fmt2 (bankroll p).

(** A card whose [value()] returns: its rank is handled before [int] is
    called, or [int] reads it. *)
Definition readable (c : Card) : Prop :=
  In (rank c) [JOKER; "A"; "K"; "Q"; "J"] \/ exists n, py_int (rank c) = Some n.

End Statements.

Definition count_jokers (l : list Card) : nat :=
  List.length (filter (fun c => (rank c =? JOKER)%string) l).

(** A round of fourteen players. *)
Definition fourteen_players : list (Player Z) :=
  map (fun n => mkPlayer (str n) 200 [] 0 0 "" 0) (range 1 15).

(** The five players with leftovers of an earlier round in their fields. *)
Definition demo_players_used : list (Player Z) :=
  map (fun p => mkPlayer (name p) (bankroll p) [joker_card] 5 7 "Win!" 9) demo_players.

Definition demo_args : Args Z := mkArgs ["Ann"; "Bob"] 50 200 None None.

Definition demo_bets : world Z := mkWorld [Amount 10; Amount 20] [].

(** * Properties *)

Unset Implicit Arguments.

(** ** Lists *)

Lemma Card_eqb_eq (c d : Card) : Card_eqb c d = true <-> c = d.
Proof.
  destruct c as [r s], d as [r' s']; unfold Card_eqb; simpl.
  rewrite andb_true_iff, String.eqb_eq.
  destruct s as [s|], s' as [s'|]; try rewrite String.eqb_eq;
    split; intros; try (destruct H; subst; reflexivity); try (inversion H; auto);
    try (destruct H; discriminate).
Qed.

Lemma existsb_Card_eqb (c : Card) (l : list Card) :
  existsb (Card_eqb c) l = true <-> In c l.
Proof.
  rewrite existsb_exists. split.
  - intros [d [Hin Heq]]. apply Card_eqb_eq in Heq. now subst.
  - intros Hin. exists c. split; [assumption | now apply Card_eqb_eq].
Qed.

Lemma distinct_cards_NoDup (l : list Card) :
  distinct_cards l = true <-> NoDup l.
Proof.
  induction l as [|c l IH]; simpl.
  - split; [constructor | reflexivity].
  - rewrite andb_true_iff, negb_true_iff, IH. split.
    + intros [Hc Hl]. constructor; [|assumption].
      intros Hin. apply existsb_Card_eqb in Hin. congruence.
    + intros Hnd. inversion Hnd as [|? ? Hnin Hl]; subst. split; [|assumption].
      destruct (existsb (Card_eqb c) l) eqn:E; [|reflexivity].
      apply existsb_Card_eqb in E. contradiction.
Qed.

Lemma NoDup_app_inv {A} (a b : list A) :
  NoDup (a ++ b) -> NoDup a /\ NoDup b /\ forall x, In x a -> ~ In x b.
Proof.
  induction a as [|x a IH]; simpl; intros Hnd.
  - repeat split; [constructor | assumption | tauto].
  - inversion Hnd as [|? ? Hnin Hrest]; subst.
    destruct (IH Hrest) as [Ha [Hb Hdis]].
    repeat split; [| assumption |].
    + constructor; [|assumption]. intros Hin. apply Hnin, in_or_app. now left.
    + intros y [Hy | Hy] Hin; [subst; apply Hnin, in_or_app; now right |].
      exact (Hdis y Hy Hin).
Qed.


Lemma slice_bound_in_range (len : nat) (k : Z) :
  0 <= k <= Z.of_nat len -> slice_bound len k = Z.to_nat k.
Proof.
  intros Hk. unfold slice_bound.
  destruct (Z.ltb_spec k 0); lia.
Qed.

(** ** The deck *)

Lemma Deck_draw_raises (d : Deck) (count : Z) :
  Z.of_nat (List.length (cards d)) < count ->
  Deck_draw d count = (Raise (ValueError "Not enough cards to draw"), d).
Proof.
  intros Hlt. unfold Deck_draw.
  destruct (Z.ltb_spec (Z.of_nat (List.length (cards d))) count); [reflexivity | lia].
Qed.

Lemma Deck_draw_in_range (d : Deck) (count : Z) :
  0 <= count <= Z.of_nat (List.length (cards d)) ->
  Deck_draw d count =
    (Ok (firstn (Z.to_nat count) (cards d)),
     mkDeck (skipn (Z.to_nat count) (cards d))).
Proof.
  intros Hk. unfold Deck_draw, slice_to, slice_from.
  destruct (Z.ltb_spec (Z.of_nat (List.length (cards d))) count); [lia |].
  now rewrite slice_bound_in_range.
Qed.

Lemma Deck_init_cards :
  cards Deck_init =
    (map (fun k => mkCard (nth (k mod 13) RANKS "") (Some (nth (k / 13) SUITS "")))
         (seq 0 52)
     ++ [joker_card; joker_card])%list.
Proof. vm_compute. reflexivity. Qed.

Lemma Deck_init_repeats_joker : ~ NoDup (cards Deck_init).
Proof.
  intros Hnd. apply distinct_cards_NoDup in Hnd.
  vm_compute in Hnd. discriminate.
Qed.

(** C5, as stated, fails: the cards of a fresh deck are not pairwise distinct,
    since its last two cards are the same value [Card("JOKER", None)]. *)
Lemma fresh_deck_not_pairwise_distinct :
  List.length (cards Deck_init) = 54%nat
  /\ nth_error (cards Deck_init) 52 = nth_error (cards Deck_init) 53
  /\ ~ NoDup (cards Deck_init).
Proof.
  split; [reflexivity |]. split; [reflexivity |].
  exact Deck_init_repeats_joker.
Qed.

(** C5, amended: a fresh deck holds exactly 54 cards in a fixed order: the card
    at position [k < 52] has suit [SUITS[k / 13]] and rank [RANKS[k mod 13]]
    (suits in the outer loop, ranks in the inner one) and the last two are
    jokers; the first 53 (the 52 combinations of 4 suits and 13 ranks and one
    joker) are pairwise distinct, and the two jokers are equal cards. *)
Theorem fresh_deck_contents :
  List.length (cards Deck_init) = 54%nat
  /\ List.length SUITS = 4%nat /\ NoDup SUITS
  /\ List.length RANKS = 13%nat /\ NoDup RANKS
  /\ cards Deck_init =
       (map (fun k => mkCard (nth (k mod 13) RANKS "") (Some (nth (k / 13) SUITS "")))
            (seq 0 52)
        ++ [joker_card; joker_card])%list
  /\ NoDup (firstn 53 (cards Deck_init))
  /\ nth_error (cards Deck_init) 52 = Some joker_card
  /\ nth_error (cards Deck_init) 53 = Some joker_card.
Proof.
  split; [reflexivity |].
  split; [reflexivity |].
  split.
  { apply (NoDup_map_inv (fun s => mkCard "" (Some s))).
    apply distinct_cards_NoDup. vm_compute. reflexivity. }
  split; [reflexivity |].
  split.
  { apply (NoDup_map_inv (fun r => mkCard r None)).
    apply distinct_cards_NoDup. vm_compute. reflexivity. }
  split; [exact Deck_init_cards |].
  split; [apply distinct_cards_NoDup; vm_compute; reflexivity |].
  split; reflexivity.
Qed.

(** C6, as stated, fails twice: [draw(54)] on a fresh deck returns the two
    equal jokers, and [draw(-1)] on a deck of three cards raises nothing and
    returns two cards. *)
Lemma draw_not_as_stated :
  ~ draw_as_stated Deck_init 54
  /\ ~ draw_as_stated
         (mkDeck [mkCard "A" (Some "♠"); mkCard "2" (Some "♠"); mkCard "3" (Some "♠")])
         (-1).
Proof.
  split; intros Hd; unfold draw_as_stated in Hd.
  - assert (E : Deck_draw Deck_init 54 = (Ok (cards Deck_init), mkDeck []))
      by (vm_compute; reflexivity).
    rewrite E in Hd. destruct Hd as [_ [_ Hd]].
    destruct (Hd _ eq_refl) as [_ [_ [Hnd _]]].
    exact (Deck_init_repeats_joker Hnd).
  - cbn in Hd. destruct Hd as [_ [_ Hd]].
    destruct (Hd _ eq_refl) as [Hlen _]. discriminate Hlen.
Qed.

(** C6, amended: [Deck.draw(count)] raises [ValueError("Not enough cards to
    draw")] if and only if [count] exceeds the number of cards left, and then
    leaves the deck unchanged; for [0 <= count] not exceeding it, it returns
    exactly the first [count] cards in order and the deck becomes the remaining
    suffix; the cards returned are pairwise distinct and none of them stays in
    the deck whenever the deck held no two equal cards. *)
Theorem draw_front_of_deck (d : Deck) (count : Z) :
  (is_ok (fst (Deck_draw d count)) = false
   <-> Z.of_nat (List.length (cards d)) < count)
  /\ (Z.of_nat (List.length (cards d)) < count ->
      Deck_draw d count = (Raise (ValueError "Not enough cards to draw"), d))
  /\ (0 <= count <= Z.of_nat (List.length (cards d)) ->
      exists drawn rest,
        Deck_draw d count = (Ok drawn, mkDeck rest)
        /\ Z.of_nat (List.length drawn) = count
        /\ drawn = firstn (Z.to_nat count) (cards d)
        /\ rest = skipn (Z.to_nat count) (cards d)
        /\ (drawn ++ rest)%list = cards d
        /\ (NoDup (cards d) ->
            NoDup drawn /\ forall c, In c drawn -> ~ In c rest)).
Proof.
  split; [| split].
  - unfold Deck_draw.
    destruct (Z.ltb_spec (Z.of_nat (List.length (cards d))) count); simpl;
      split; intros; try lia; try reflexivity; discriminate.
  - apply Deck_draw_raises.
  - intros Hk. eexists _, _. split; [apply Deck_draw_in_range; assumption |].
    split; [rewrite length_firstn; lia |].
    split; [reflexivity |]. split; [reflexivity |].
    split; [apply firstn_skipn |].
    intros Hnd. rewrite <- (firstn_skipn (Z.to_nat count) (cards d)) in Hnd.
    apply NoDup_app_inv in Hnd. tauto.
Qed.

Lemma draw_front_of_deck_witness :
  exists drawn rest,
    Deck_draw (mkDeck (firstn 53 (cards Deck_init))) 4 = (Ok drawn, mkDeck rest)
    /\ NoDup drawn
    /\ Deck_draw (mkDeck (firstn 53 (cards Deck_init))) 54
       = (Raise (ValueError "Not enough cards to draw"),
          mkDeck (firstn 53 (cards Deck_init))).
Proof.
  pose proof (draw_front_of_deck (mkDeck (firstn 53 (cards Deck_init))) 4) as H4.
  pose proof (draw_front_of_deck (mkDeck (firstn 53 (cards Deck_init))) 54) as H54.
  destruct H4 as [_ [_ H4]]. destruct H54 as [_ [H54 _]].
  destruct H4 as [drawn [rest [Hdraw [_ [_ [_ [_ Hnd]]]]]]].
  { simpl. lia. }
  exists drawn, rest. split; [exact Hdraw |]. split.
  - apply Hnd. apply distinct_cards_NoDup. vm_compute. reflexivity.
  - apply H54. simpl. lia.
Defined.

(** C7, as stated, fails twice: on a fresh deck [draw(53)] and then [draw(1)]
    both return a joker, and on a deck of three cards [draw(-1)] then [draw(1)]
    return all three cards while [draw(0)] returns none. *)
Lemma two_draws_not_as_stated :
  ~ two_draws_as_stated Deck_init 53 1
  /\ ~ two_draws_as_stated
         (mkDeck [mkCard "A" (Some "♠"); mkCard "2" (Some "♠"); mkCard "3" (Some "♠")])
         (-1) 1.
Proof.
  split; intros Hd; unfold two_draws_as_stated in Hd.
  - destruct Hd as [a [d1 [b [d2 [ab [d3 [Ha [Hb [_ [Hdis _]]]]]]]]]].
    { simpl. lia. }
    vm_compute in Ha. injection Ha as <- <-.
    vm_compute in Hb. injection Hb as <- _.
    apply (Hdis joker_card).
    + apply existsb_Card_eqb. vm_compute. reflexivity.
    + left. reflexivity.
  - destruct Hd as [a [d1 [b [d2 [ab [d3 [Ha [Hb [Hab [_ Hcat]]]]]]]]]].
    { simpl. lia. }
    vm_compute in Ha. injection Ha as <- <-.
    vm_compute in Hb. injection Hb as <- _.
    vm_compute in Hab. injection Hab as <- _.
    discriminate Hcat.
Qed.

(** C7, amended: for every deck and all [n >= 0] and [m >= 0] with [n + m] not
    exceeding the number of cards left, [draw(n)] followed by [draw(m)] returns
    two consecutive runs of the deck whose concatenation is what a single
    [draw(n + m)] returns from the same deck, and both ways leave the same
    deck; the two runs share no card whenever the deck held no two equal
    cards. *)
Theorem two_draws_concatenate (d : Deck) (n m : Z) :
  0 <= n -> 0 <= m -> n + m <= Z.of_nat (List.length (cards d)) ->
  exists a d1 b d2 ab d3,
    Deck_draw d n = (Ok a, d1)
    /\ Deck_draw d1 m = (Ok b, d2)
    /\ Deck_draw d (n + m) = (Ok ab, d3)
    /\ (a ++ b)%list = ab
    /\ d2 = d3
    /\ (a ++ b ++ cards d2)%list = cards d
    /\ (NoDup (cards d) -> forall c, In c a -> ~ In c b).
Proof.
  intros Hn Hm Hnm.
  set (l := cards d) in *.
  assert (Hcat : (firstn (Z.to_nat n) l ++ firstn (Z.to_nat m) (skipn (Z.to_nat n) l))%list
                 = firstn (Z.to_nat (n + m)) l).
  { rewrite firstn_skipn_comm, <- Z2Nat.inj_add by assumption.
    rewrite <- (firstn_skipn (Z.to_nat n) (firstn (Z.to_nat (n + m)) l)) at 2.
    f_equal. rewrite firstn_firstn. f_equal. lia. }
  assert (Hrest : skipn (Z.to_nat m) (skipn (Z.to_nat n) l) = skipn (Z.to_nat (n + m)) l).
  { rewrite skipn_skipn. f_equal. lia. }
  eexists _, _, _, _, _, _.
  split; [apply Deck_draw_in_range; fold l; lia |].
  split; [apply Deck_draw_in_range; simpl; rewrite length_skipn; fold l; lia |].
  split; [apply Deck_draw_in_range; fold l; lia |].
  simpl. fold l.
  split; [exact Hcat |].
  split; [now rewrite Hrest |].
  split.
  { rewrite app_assoc, Hcat, Hrest. apply firstn_skipn. }
  intros Hnd c Ha Hb.
  rewrite <- (firstn_skipn (Z.to_nat n) l) in Hnd.
  apply NoDup_app_inv in Hnd. destruct Hnd as [_ [_ Hdis]].
  apply (Hdis c Ha). rewrite <- (firstn_skipn (Z.to_nat m) (skipn (Z.to_nat n) l)).
  apply in_or_app. now left.
Qed.

Lemma two_draws_concatenate_witness :
  exists a d1 b d2 ab d3,
    Deck_draw (mkDeck (firstn 53 (cards Deck_init))) 4 = (Ok a, d1)
    /\ Deck_draw d1 4 = (Ok b, d2)
    /\ Deck_draw (mkDeck (firstn 53 (cards Deck_init))) (4 + 4) = (Ok ab, d3)
    /\ (a ++ b)%list = ab
    /\ (forall c, In c a -> ~ In c b).
Proof.
  destruct (two_draws_concatenate (mkDeck (firstn 53 (cards Deck_init))) 4 4)
    as [a [d1 [b [d2 [ab [d3 [Ha [Hb [Hab [Hcat [_ [_ Hdis]]]]]]]]]]]];
    [lia | lia | simpl; lia |].
  exists a, d1, b, d2, ab, d3. repeat split; try assumption.
  apply Hdis. apply distinct_cards_NoDup. vm_compute. reflexivity.
Defined.

(** ** Scoring *)

Lemma RANKS_eq :
  RANKS = ["A"; "2"; "3"; "4"; "5"; "6"; "7"; "8"; "9"; "10"; "J"; "Q"; "K"].
Proof. reflexivity. Qed.

Lemma small_number (n : Z) :
  2 <= n <= 10 ->
  n = 2 \/ n = 3 \/ n = 4 \/ n = 5 \/ n = 6 \/ n = 7 \/ n = 8 \/ n = 9 \/ n = 10.
Proof. lia. Qed.

Lemma game_card_cases (c : Card) :
  game_card c ->
  rank c = JOKER \/ rank c = "A" \/ In (rank c) ["J"; "Q"; "K"]
  \/ exists n, 2 <= n <= 10 /\ rank c = str n.
Proof.
  unfold game_card. rewrite RANKS_eq. simpl.
  intros [H|[H|[H|[H|[H|[H|[H|[H|[H|[H|[H|[H|[H|[H|[]]]]]]]]]]]]]]];
    symmetry in H.
  1: now left.
  1: now (right; left).
  10-12: right; right; left; rewrite H; simpl; tauto.
  all: right; right; right.
  - now exists 2.
  - now exists 3.
  - now exists 4.
  - now exists 5.
  - now exists 6.
  - now exists 7.
  - now exists 8.
  - now exists 9.
  - now exists 10.
Qed.

Lemma demo_builtins_int : @int_reads_ranks demo_builtins.
Proof.
  intros n Hn.
  destruct (small_number n Hn) as [-> | [-> | [-> | [-> | [-> | [-> | [-> | [-> | ->]]]]]]]];
    reflexivity.
Qed.

Section Scoring.
Context `{Builtins}.

Lemma value_joker (c : Card) : rank c = JOKER -> value c = Ok 0.
Proof. intros Hr. unfold value. now rewrite Hr. Qed.

Lemma value_ace (s : option string) : value (mkCard "A" s) = Ok 11.
Proof. reflexivity. Qed.

Lemma value_face (r : string) (s : option string) :
  In r ["J"; "Q"; "K"] -> value (mkCard r s) = Ok 10.
Proof. simpl. intros [<- | [<- | [<- | []]]]; reflexivity. Qed.

Lemma value_number (n : Z) (s : option string) :
  int_reads_ranks -> 2 <= n <= 10 -> value (mkCard (str n) s) = Ok n.
Proof.
  intros Hint Hn. pose proof (Hint n Hn) as Hparse.
  destruct (small_number n Hn) as [-> | [-> | [-> | [-> | [-> | [-> | [-> | [-> | ->]]]]]]]];
    unfold value, int; cbn in *; now rewrite Hparse.
Qed.


Lemma sum_from_values (acc : Z) (l : list Card) (vs : list Z) :
  Forall2 (fun c v => value c = Ok v) l vs ->
  sum_from acc value l = Ok (acc + Zsum vs).
Proof.
  intros Hvs. revert acc.
  induction Hvs as [| c v l vs Hc _ IH]; intros acc; simpl.
  - f_equal. lia.
  - rewrite Hc, IH. f_equal. lia.
Qed.


Lemma sum_from_skips_jokers (acc : Z) (hand : list Card) :
  sum_from acc value (filter not_joker hand) = sum_from acc value hand.
Proof.
  revert acc. induction hand as [| c hand IH]; intros acc; [reflexivity |].
  simpl. unfold not_joker at 1.
  destruct (String.eqb_spec (rank c) JOKER) as [Hj | Hj]; simpl.
  - rewrite (value_joker c Hj), Z.add_0_r. apply IH.
  - destruct (value c); [apply IH | reflexivity].
Qed.

Lemma hand_has_joker_In (hand : list Card) :
  hand_has_joker hand = true <-> exists c, In c hand /\ rank c = JOKER.
Proof.
  unfold hand_has_joker. rewrite existsb_exists.
  split; intros [c [Hin Hc]]; exists c; split; try assumption;
    now apply String.eqb_eq.
Qed.

Lemma spec_non_jokers_filter (hand : list Card) :
  spec_non_jokers hand = filter not_joker hand.
Proof.
  induction hand as [| c hand IH]; [reflexivity |].
  simpl. unfold not_joker at 1. change JOKER with "JOKER".
  destruct (rank c =? "JOKER")%string; simpl; now rewrite IH.
Qed.

Lemma value_is_spec_points (c : Card) :
  int_reads_ranks -> game_card c -> not_joker c = true ->
  value c = Ok (spec_points (rank c)).
Proof.
  intros Hint Hc Hnj. destruct c as [r s].
  destruct (game_card_cases _ Hc) as [Hr | [Hr | [Hr | [n [Hn Hr]]]]]; simpl in Hr.
  - unfold not_joker in Hnj. simpl in Hnj. rewrite Hr in Hnj. discriminate.
  - subst r. apply value_ace.
  - rewrite (value_face r s Hr).
    simpl in Hr. destruct Hr as [<- | [<- | [<- | []]]]; reflexivity.
  - subst r. rewrite (value_number n s Hint Hn). simpl rank.
    destruct (small_number n Hn) as [-> | [-> | [-> | [-> | [-> | [-> | [-> | [-> | ->]]]]]]]];
      reflexivity.
Qed.

Lemma values_are_spec_points (l : list Card) :
  int_reads_ranks -> Forall game_card l -> Forall (fun c => not_joker c = true) l ->
  Forall2 (fun c v => value c = Ok v) l (map (fun c => spec_points (rank c)) l).
Proof.
  intros Hint Hl. induction Hl as [| c l Hc _ IH]; intros Hnj; simpl.
  - constructor.
  - inversion Hnj as [| ? ? Hcj Hlj]; subst.
    constructor; [now apply value_is_spec_points | now apply IH].
Qed.

(** C8: [value] is 11 for rank A, 10 for J, Q and K, the number for the
    ranks 2 to 10 and 0 for a joker; on a hand of any length made of cards of
    the game [score_hand] returns (it raises nothing, and it touches no
    state) and its result is the sum, over the cards of the hand that are not
    jokers, of the points the value table gives their rank, which is what
    [value()] returns on each of them; a joker put anywhere into a hand
    leaves the score as it was. *)
Theorem score_hand_sums_non_jokers :
  int_reads_ranks ->
  (forall s, value (mkCard "A" s) = Ok 11)
  /\ (forall r s, In r ["J"; "Q"; "K"] -> value (mkCard r s) = Ok 10)
  /\ (forall n s, 2 <= n <= 10 -> value (mkCard (str n) s) = Ok n)
  /\ (forall s, value (mkCard JOKER s) = Ok 0)
  /\ (forall hand, Forall game_card hand ->
        score_hand hand
        = Ok (Zsum (map (fun c => spec_points (rank c)) (spec_non_jokers hand)))
        /\ Forall2 (fun c v => value c = Ok v) (spec_non_jokers hand)
             (map (fun c => spec_points (rank c)) (spec_non_jokers hand)))
  /\ (forall h1 h2 c, rank c = JOKER ->
        score_hand (h1 ++ c :: h2) = score_hand (h1 ++ h2)).
Proof.
  intros Hint.
  split; [apply value_ace |].
  split; [apply value_face |].
  split; [intros n s Hn; now apply value_number |].
  split; [intros s; now apply value_joker |].
  split.
  - intros hand Hhand.
    assert (Hvs : Forall2 (fun c v => value c = Ok v) (spec_non_jokers hand)
                    (map (fun c => spec_points (rank c)) (spec_non_jokers hand))).
    { rewrite spec_non_jokers_filter. apply values_are_spec_points; [exact Hint | |].
      - apply Forall_forall. intros c Hc. apply filter_In in Hc.
        rewrite Forall_forall in Hhand. now apply Hhand.
      - apply Forall_forall. intros c Hc. now apply filter_In in Hc. }
    split; [| exact Hvs].
    unfold score_hand. rewrite <- spec_non_jokers_filter.
    now rewrite (sum_from_values 0 _ _ Hvs).
  - intros h1 h2 c Hc. unfold score_hand.
    rewrite !filter_app. simpl. unfold not_joker at 2.
    rewrite Hc. reflexivity.
Qed.

(** C10: for every hand [score_hand(hand)] is the sum of [value()] over all
    its cards, jokers included: [value()] is 0 for a joker, so the filter of
    [score_hand] changes nothing. *)
Theorem score_hand_filter_redundant :
  (forall c, rank c = JOKER -> value c = Ok 0)
  /\ forall hand, score_hand hand = sum_from 0 value hand.
Proof.
  split; [apply value_joker |].
  intros hand. apply sum_from_skips_jokers.
Qed.

End Scoring.

(** ** One turn *)

Section Turn.
Context {M : Type} `{Money M} `{Builtins}.

Lemma pay_ok (p : Player M) (amount : M) :
  bankroll p <$ amount = false ->
  pay p amount = Ok (set_bankroll p (bankroll p -$ amount)).
Proof. intros Hlt. unfold pay. now rewrite Hlt. Qed.

Lemma pay_inv (p q : Player M) (amount : M) :
  pay p amount = Ok q ->
  bankroll p <$ amount = false /\ q = set_bankroll p (bankroll p -$ amount).
Proof.
  unfold pay. destruct (bankroll p <$ amount); [discriminate |].
  intros [= <-]. now split.
Qed.

(** The payout step: which branch ran and what it left. *)
Lemma settle_inv (q p' : Player M) (w w' : world M) :
  settle q w = (Ok p', w') ->
  (hand_has_joker (hand q) = true
   /\ p' = set_outcome (set_payout (credit q (bet q *$ 3)) (bet q *$ 3))
             ("Joker! Wins $" ++ fmt2 (bet q *$ 3) ++ " (3x bet).")
   /\ w' = w)
  \/ (hand_has_joker (hand q) = false
      /\ exists total,
           score_hand (hand q) = Ok total
           /\ w' = mkWorld (stdin w) (stdout w ++ ["Total score: " ++ str total])
           /\ (((32 <=? total) = true
                /\ p' = set_outcome (set_payout (credit q (bet q *$ 2)) (bet q *$ 2))
                          ("Win! Score " ++ str total ++ " pays $"
                           ++ fmt2 (bet q *$ 2) ++ " (2x bet)."))
               \/ ((32 <=? total) = false
                   /\ p' = set_outcome q ("Lose. Score " ++ str total ++ " below 32.")))).
Proof.
  unfold settle.
  destruct (hand_has_joker (hand q)) eqn:Hj.
  - unfold ret. intros [= <- <-]. left. auto.
  - unfold bind, lift, print, ret.
    destruct (score_hand (hand q)) as [total | e] eqn:Hs; [| discriminate].
    intros Hrun.
    right. split; [reflexivity |]. exists total. split; [reflexivity |].
    destruct (32 <=? total) eqn:Ht; injection Hrun as <- <-; auto.
Qed.


Lemma play_turn_eq (max_bet ante : M) (p : Player M) (w : world M) :
  play_turn max_bet ante p w =
    if bankroll p <$ ante then (Ok (set_outcome p "Cannot cover ante; skipped."), w)
    else
      match item0 (hand p) with
      | Raise e =>
          (Raise e,
           mkWorld (stdin w)
             (stdout w
              ++ [newline ++ name p ++ " pays ante $" ++ fmt2 ante
                  ++ ". Bankroll now $" ++ fmt2 (bankroll p -$ ante) ++ "."]))
      | Ok c =>
          match prompt_bet (after_ante ante p) max_bet (announced ante p c w) with
          | (Raise e, w2) => (Raise e, w2)
          | (Ok v, w2) =>
              if v ==$ zero then
                (Ok (set_outcome (set_bet (after_ante ante p) v)
                       "No bet placed; round ended."), w2)
              else if bankroll (after_ante ante p) <$ v then
                (Raise (ValueError (name p ++ " cannot cover $" ++ fmt2 v)), w2)
              else
                match settle (after_bet ante v p) (revealed ante v p w2) with
                | (Ok q, w3) => (Ok q, summed_up q w3)
                | (Raise e, w3) => (Raise e, w3)
                end
          end
      end.
Proof.
  destruct p as [nm b h a bt o po].
  unfold play_turn, bind, lift, print, ret, pay.
  cbn [bankroll hand name bet set_bankroll set_ante_paid set_bet].
  destruct (b <$ ante) eqn:Hante; [reflexivity |].
  cbn [bankroll hand name bet set_bankroll set_ante_paid set_bet].
  destruct (item0 h) as [c | e]; [| reflexivity].
  change (prompt_bet _ max_bet _)
    with (prompt_bet (after_ante ante (mkPlayer nm b h a bt o po)) max_bet
            (announced ante (mkPlayer nm b h a bt o po) c w)).
  destruct (prompt_bet _ max_bet _) as [[v | e] w2]; [| reflexivity].
  cbn [bankroll hand name bet set_bankroll set_ante_paid set_bet after_ante].
  destruct (v ==$ zero); [reflexivity |].
  destruct (b -$ ante <$ v); [reflexivity |].
  change (settle _ _)
    with (settle (after_bet ante v (mkPlayer nm b h a bt o po))
            (revealed ante v (mkPlayer nm b h a bt o po) w2)).
  destruct (settle _ _) as [[q | e] w3]; reflexivity.
Qed.

(** One turn that returns: which branch ran and what it left. *)
Lemma play_turn_inv (max_bet ante : M) (p p' : Player M) (w w' : world M) :
  play_turn max_bet ante p w = (Ok p', w') ->
  (bankroll p <$ ante = true
   /\ p' = set_outcome p "Cannot cover ante; skipped."
   /\ w' = w)
  \/ (bankroll p <$ ante = false
      /\ exists c v w2,
           item0 (hand p) = Ok c
           /\ prompt_bet (after_ante ante p) max_bet (announced ante p c w) = (Ok v, w2)
           /\ ((v ==$ zero = true
                /\ p' = set_outcome (set_bet (after_ante ante p) v)
                          "No bet placed; round ended."
                /\ w' = w2)
               \/ (v ==$ zero = false
                   /\ bankroll (after_ante ante p) <$ v = false
                   /\ exists w3,
                        settle (after_bet ante v p) (revealed ante v p w2) = (Ok p', w3)
                        /\ w' = summed_up p' w3))).
Proof.
  rewrite play_turn_eq.
  destruct (bankroll p <$ ante) eqn:Hante.
  - intros [= <- <-]. left. auto.
  - destruct (item0 (hand p)) as [c | e]; [| discriminate].
    destruct (prompt_bet _ max_bet _) as [[v | e] w2] eqn:Hv; [| discriminate].
    destruct (v ==$ zero) eqn:Hz.
    + intros [= <- <-]. right. split; [reflexivity |].
      exists c, v, w2. split; [reflexivity |]. split; [exact Hv |].
      left. auto.
    + destruct (bankroll (after_ante ante p) <$ v) eqn:Hcover; [discriminate |].
      destruct (settle _ _) as [[q | e] w3] eqn:Hq; [| discriminate].
      intros [= <- <-]. right. split; [reflexivity |].
      exists c, v, w2. split; [reflexivity |]. split; [exact Hv |].
      right. split; [exact Hz |]. split; [exact Hcover |].
      exists w3. split; [exact Hq | reflexivity].
Qed.

End Turn.

(** ** The round *)

Section Round.
Context {M : Type} `{Money M} `{Builtins}.

Lemma play_turn_branch (max_bet ante : M) (p p' : Player M) (w w' : world M) :
  play_turn max_bet ante p w = (Ok p', w') ->
  exists br, turn_took ante p p' br.
Proof.
  intros Hrun.
  destruct (play_turn_inv _ _ _ _ _ _ Hrun)
    as [[Hlt [-> _]] | [Hge [c [v [w2 [_ [_ [[Hz [-> _]] | [Hz [_ [w3 [Hs _]]]]]]]]]]]].
  - exists Skipped. now split.
  - exists NoBet. split; [assumption |]. now exists v.
  - destruct (settle_inv _ _ _ _ Hs)
      as [[Hj [-> _]] | [Hj [total [Ht [_ [[H32 ->] | [H32 ->]]]]]]].
    + exists JokerWin. split; [assumption |]. exists v. auto.
    + exists (ScoreWin total). split; [assumption |]. exists v.
      apply Z.leb_le in H32. auto.
    + exists (Lose total). split; [assumption |]. exists v.
      apply Z.leb_gt in H32. auto.
Qed.

(** The deal: the player at position [i] is reset and receives the four
    cards from position [4 * i] of the deck. *)
Lemma deal_spec (players : list (Player M)) :
  forall (deck deck' : Deck) (ps : list (Player M)),
    deal deck players = (Ok ps, deck') ->
    List.length ps = List.length players
    /\ forall i p,
         nth_error players i = Some p ->
         nth_error ps i
           = Some (set_hand (reset_round p) (firstn 4 (skipn (4 * i) (cards deck))))
         /\ List.length (firstn 4 (skipn (4 * i) (cards deck))) = 4%nat.
Proof.
  induction players as [| q rest IH]; intros deck deck' ps Hdeal; simpl in Hdeal.
  - injection Hdeal as <- _. split; [reflexivity |]. intros [| i] p Hp; discriminate.
  - destruct (Z.ltb_spec (Z.of_nat (List.length (cards deck))) 4) as [Hshort | Hlong].
    { rewrite Deck_draw_raises in Hdeal by assumption. discriminate. }
    rewrite Deck_draw_in_range in Hdeal by lia.
    destruct (deal _ rest) as [[ps' | e] d2] eqn:Hrest; [| discriminate].
    injection Hdeal as <- _.
    destruct (IH _ _ _ Hrest) as [Hlen Hnth].
    split; [simpl; now rewrite Hlen |].
    intros [| i] p Hp; simpl in Hp.
    + injection Hp as ->. split; [reflexivity |].
      rewrite length_firstn. simpl skipn. lia.
    + destruct (Hnth i p Hp) as [Hi Hfour]. cbn [cards] in Hi, Hfour.
      rewrite skipn_skipn in Hi, Hfour.
      replace (4 * S i)%nat with (4 * i + Z.to_nat 4)%nat by lia.
      split; assumption.
Qed.

Lemma play_turns_spec (max_bet ante : M) (ps : list (Player M)) :
  forall (w w' : world M) (ps' : list (Player M)),
    play_turns max_bet ante ps w = (Ok ps', w') ->
    List.length ps' = List.length ps
    /\ forall i p,
         nth_error ps i = Some p ->
         exists p' w1 w2,
           nth_error ps' i = Some p'
           /\ play_turn max_bet ante p w1 = (Ok p', w2).
Proof.
  induction ps as [| q rest IH]; intros w w' ps' Hrun; simpl in Hrun.
  - injection Hrun as <- _. split; [reflexivity |]. intros [| i] p Hp; discriminate.
  - unfold bind, ret in Hrun.
    destruct (play_turn max_bet ante q w) as [[q' | e] w1] eqn:Hq; [| discriminate].
    destruct (play_turns max_bet ante rest w1) as [[rest' | e] w2] eqn:Hrest;
      [| discriminate].
    injection Hrun as <- _.
    destruct (IH _ _ _ Hrest) as [Hlen Hnth].
    split; [simpl; now rewrite Hlen |].
    intros [| i] p Hp; simpl in Hp.
    + injection Hp as ->. exists q', w, w1. now split.
    + apply (Hnth i p Hp).
Qed.

(** A round that returns has taken every player, in order, through one turn
    that started from the reset player holding the dealt hand. *)
Lemma play_round_turns (players players' : list (Player M)) (max_bet ante : M)
    (seed : option Z) (w w' : world M) :
  play_round players max_bet ante seed w = (Ok players', w') ->
  List.length players' = List.length players
  /\ forall i p,
       nth_error players i = Some p ->
       List.length (dealt_hand seed i) = 4%nat
       /\ exists p' w1 w2,
            nth_error players' i = Some p'
            /\ play_turn max_bet ante (dealt seed i p) w1 = (Ok p', w2).
Proof.
  unfold play_round, bind, lift. intros Hrun.
  destruct (deal (Deck_shuffle Deck_init seed) players) as [[ps | e] d] eqn:Hdeal;
    simpl in Hrun; [| discriminate].
  destruct (deal_spec _ _ _ _ Hdeal) as [Hlen1 Hdealt].
  destruct (play_turns_spec _ _ _ _ _ _ Hrun) as [Hlen2 Hturns].
  split; [congruence |].
  intros i p Hp. destruct (Hdealt i p Hp) as [Hi Hfour].
  split; [exact Hfour |].
  exact (Hturns i _ Hi).
Qed.

Lemma play_round_branches (players players' : list (Player M)) (max_bet ante : M)
    (seed : option Z) (w w' : world M) :
  play_round players max_bet ante seed w = (Ok players', w') ->
  forall i p,
    nth_error players i = Some p ->
    exists p' br,
      nth_error players' i = Some p'
      /\ turn_took ante (dealt seed i p) p' br.
Proof.
  intros Hrun i p Hp.
  destruct (play_round_turns _ _ _ _ _ _ _ Hrun) as [_ Hturns].
  destruct (Hturns i p Hp) as [_ [p' [w1 [w2 [Hi Hturn]]]]].
  destruct (play_turn_branch _ _ _ _ _ _ Hturn) as [br Hbr].
  now exists p', br.
Qed.

End Round.

(** ** What a round leaves of every player *)

Ltac fields :=
  cbn [name bankroll hand ante_paid bet outcome payout
       set_bankroll set_hand set_ante_paid set_bet set_outcome set_payout
       reset_round credit after_ante after_bet dealt] in *.

(** *** Runs on floats *)

Lemma big_round_eq : big_round = (Ok big_result, snd big_round).
Proof. vm_compute. reflexivity. Qed.

Lemma dime_round_eq : dime_round = (Ok dime_result, snd dime_round).
Proof. vm_compute. reflexivity. Qed.

Lemma minus_zero_round_eq :
  minus_zero_round = (Ok minus_zero_result, snd minus_zero_round).
Proof. vm_compute. reflexivity. Qed.

Lemma minus_zero_is_not_zero : (-0)%float <> 0%float.
Proof.
  intros Heq.
  apply (f_equal (fun x => PrimFloat.ltb (PrimFloat.div 1%float x) 0%float)) in Heq.
  vm_compute in Heq. discriminate.
Qed.

(** C1, as stated, fails on the program's floats.  With a bankroll of 1e17, an
    ante of 5 and a lost bet of 10 the final bankroll is 99999999999999984, not
    1e17 - 5 - 10 + 0: each subtraction is rounded.  With the default bankroll
    of 200, the default ante of 5 and a lost bet of 0.1 the final bankroll is
    not the exact value of 200 - 5 - 0.1 either (amounts scaled by [2^60]). *)
Lemma bankroll_not_exact_on_floats :
  (exists p',
     big_round = (Ok big_result, snd big_round)
     /\ nth_error big_result 2 = Some p'
     /\ outcome p' = "Lose. Score 22 below 32."
     /\ scaled 0 1e17%float = Some (10 ^ 17)
     /\ scaled 0 (ante_paid p') = Some 5
     /\ scaled 0 (bet p') = Some 10
     /\ scaled 0 (payout p') = Some 0
     /\ scaled 0 (bankroll p') = Some (10 ^ 17 - 16)
     /\ ~ exact_accounting 0 1e17%float p')
  /\ (exists p',
        dime_round = (Ok dime_result, snd dime_round)
        /\ nth_error dime_result 2 = Some p'
        /\ outcome p' = "Lose. Score 22 below 32."
        /\ scaled 60 200%float = Some (200 * 2 ^ 60)
        /\ scaled 60 (ante_paid p') = Some (5 * 2 ^ 60)
        /\ bet p' = dime
        /\ scaled 60 (payout p') = Some 0
        /\ ~ exact_accounting 60 200%float p').
Proof.
  split.
  - eexists. split; [exact big_round_eq |]. split; [reflexivity |].
    split; [reflexivity |]. split; [vm_compute; reflexivity |].
    split; [vm_compute; reflexivity |]. split; [vm_compute; reflexivity |].
    split; [vm_compute; reflexivity |]. split; [vm_compute; reflexivity |].
    intros [b0 [b [a [v [w [H0 [H1 [H2 [H3 [H4 H5]]]]]]]]]].
    vm_compute in H0, H1, H2, H3, H4.
    injection H0 as <-. injection H1 as <-. injection H2 as <-.
    injection H3 as <-. injection H4 as <-.
    vm_compute in H5. discriminate.
  - eexists. split; [exact dime_round_eq |]. split; [reflexivity |].
    split; [reflexivity |]. split; [vm_compute; reflexivity |].
    split; [vm_compute; reflexivity |]. split; [reflexivity |].
    split; [vm_compute; reflexivity |].
    intros [b0 [b [a [v [w [H0 [H1 [H2 [H3 [H4 H5]]]]]]]]]].
    vm_compute in H0, H1, H2, H3, H4.
    injection H0 as <-. injection H1 as <-. injection H2 as <-.
    injection H3 as <-. injection H4 as <-.
    vm_compute in H5. discriminate.
Qed.

(** C4, as stated, fails on the program's floats.  A player with a bankroll of
    1e17 who answers "-0" places no bet, yet the bet recorded is -0.0, which
    compares equal to 0, is not 0.0 and is printed "-0.00"; and the bankroll
    ends at 1e17, not 5 lower, since 1e17 - 5 rounds to 1e17. *)
Lemma zero_bet_not_as_stated_on_floats :
  exists p',
    minus_zero_round = (Ok [p'], snd minus_zero_round)
    /\ outcome p' = "No bet placed; round ended."
    /\ PrimFloat.eqb (bet p') 0%float = true
    /\ bet p' <> 0%float
    /\ fmt_float 2 (bet p') = "-0.00"
    /\ scaled 0 (ante_paid p') = Some 5
    /\ scaled 0 1e17%float = Some (10 ^ 17)
    /\ scaled 0 (bankroll p') = Some (10 ^ 17)
    /\ 10 ^ 17 <> 10 ^ 17 - 5.
Proof.
  eexists. split; [exact minus_zero_round_eq |].
  split; [reflexivity |]. split; [reflexivity |].
  split; [exact minus_zero_is_not_zero |].
  split; [vm_compute; reflexivity |]. split; [vm_compute; reflexivity |].
  split; [vm_compute; reflexivity |]. split; [vm_compute; reflexivity |].
  discriminate.
Qed.

Section Claims.
Context {M : Type} `{Money M} `{Builtins}.

Lemma zero_is_zero : zero ==$ zero = true.
Proof. exact m_zero_eqb. Qed.

(** What one turn that starts from a reset player leaves of the bankroll. *)
Lemma turn_accounted (ante : M) (p p' : Player M) (h : list Card) (br : branch) :
  turn_took ante (set_hand (reset_round p) h) p' br ->
  accounted (bankroll p) p' br.
Proof.
  intros Hbr. destruct br; simpl in Hbr.
  - destruct Hbr as [_ ->]. fields. repeat split.
  - destruct Hbr as [_ [v [Hz ->]]]. fields. repeat split. exact Hz.
  - destruct Hbr as [_ [v [_ [_ ->]]]]. fields. reflexivity.
  - destruct Hbr as [_ [v [_ [_ [_ [_ ->]]]]]]. fields. reflexivity.
  - destruct Hbr as [_ [v [_ [_ [_ [_ ->]]]]]]. fields. repeat split.
Qed.

(** In an exact arithmetic the five cases are one identity. *)
Lemma accounted_exact `{!@ExactMoney M _} (start : M) (p' : Player M) (br : branch) :
  accounted start p' br ->
  bankroll p' = start -$ ante_paid p' -$ bet p' +$ payout p'.
Proof.
  destruct br; simpl.
  - intros [-> [-> [-> ->]]]. now rewrite !m_sub_zero, m_add_zero.
  - intros [-> [Hz ->]]. apply m_eqb_zero in Hz. rewrite Hz.
    now rewrite m_sub_zero, m_add_zero.
  - intros ->. reflexivity.
  - intros ->. reflexivity.
  - intros [-> ->]. now rewrite m_add_zero.
Qed.

(** C1, amended: every turn that returns, started from a reset player holding
    any hand, went through one of the five branches, and the final bankroll is
    the result of the program's own operations on the starting bankroll,
    taken from left to right and each rounded as the arithmetic rounds it:
    the starting bankroll when skipped; that minus [ante_paid] when the bet
    compares equal to zero; that minus [ante_paid] minus [bet] plus [payout]
    on a win; that minus [ante_paid] minus [bet] on a loss; the amounts not
    named are zero.  So it is for every player of a round that returns.  In
    an exact arithmetic (subtracting or adding zero changes nothing, only
    zero compares equal to zero) this is the one identity: final bankroll =
    starting bankroll - [ante_paid] - [bet] + [payout]. *)
Theorem bankroll_accounting (max_bet ante : M) :
  (forall p h w p' w',
     play_turn max_bet ante (set_hand (reset_round p) h) w = (Ok p', w') ->
     exists br,
       turn_took ante (set_hand (reset_round p) h) p' br
       /\ accounted (bankroll p) p' br)
  /\ (forall players players' seed w w',
        play_round players max_bet ante seed w = (Ok players', w') ->
        forall i p,
          nth_error players i = Some p ->
          exists p' br,
            nth_error players' i = Some p'
            /\ turn_took ante (dealt seed i p) p' br
            /\ accounted (bankroll p) p' br)
  /\ (@ExactMoney M _ ->
      forall players players' seed w w',
        play_round players max_bet ante seed w = (Ok players', w') ->
        forall i p,
          nth_error players i = Some p ->
          exists p',
            nth_error players' i = Some p'
            /\ bankroll p' = bankroll p -$ ante_paid p' -$ bet p' +$ payout p').
Proof.
  split; [| split].
  - intros p h w p' w' Hrun.
    destruct (play_turn_branch _ _ _ _ _ _ Hrun) as [br Hbr].
    exists br. split; [exact Hbr |]. exact (turn_accounted _ _ _ _ _ Hbr).
  - intros players players' seed w w' Hrun i p Hp.
    destruct (play_round_branches _ _ _ _ _ _ _ Hrun i p Hp) as [p' [br [Hi Hbr]]].
    exists p', br. split; [exact Hi |]. split; [exact Hbr |].
    exact (turn_accounted _ _ _ _ _ Hbr).
  - intros Hexact players players' seed w w' Hrun i p Hp.
    destruct (play_round_branches _ _ _ _ _ _ _ Hrun i p Hp) as [p' [br [Hi Hbr]]].
    exists p'. split; [exact Hi |].
    exact (accounted_exact _ _ _ (turn_accounted _ _ _ _ _ Hbr)).
Qed.

(** C2: in a round that returns, for every player whose bet is not zero: if
    the hand holds a joker the payout is three times the bet and is credited;
    otherwise the hand has a score, and if the score is 32 or more the payout
    is twice the bet and is credited; otherwise the payout is zero and
    nothing is credited.  The joker is looked for first, so a hand with a
    joker never takes the score branches. *)
Theorem payout_by_branch (players players' : list (Player M))
    (max_bet ante : M) (seed : option Z) (w w' : world M) :
  play_round players max_bet ante seed w = (Ok players', w') ->
  forall i p,
    nth_error players i = Some p ->
    exists p',
      nth_error players' i = Some p'
      /\ (bet p' ==$ zero = false ->
          if hand_has_joker (hand p') then
            payout p' = bet p' *$ 3
            /\ bankroll p' = bankroll p -$ ante -$ bet p' +$ bet p' *$ 3
            /\ outcome p' = "Joker! Wins $" ++ fmt2 (bet p' *$ 3) ++ " (3x bet)."
          else
            exists total,
              score_hand (hand p') = Ok total
              /\ if 32 <=? total then
                   payout p' = bet p' *$ 2
                   /\ bankroll p' = bankroll p -$ ante -$ bet p' +$ bet p' *$ 2
                   /\ outcome p' = "Win! Score " ++ str total ++ " pays $"
                                   ++ fmt2 (bet p' *$ 2) ++ " (2x bet)."
                 else
                   payout p' = zero
                   /\ bankroll p' = bankroll p -$ ante -$ bet p'
                   /\ outcome p' = "Lose. Score " ++ str total ++ " below 32.").
Proof.
  intros Hrun i p Hp.
  destruct (play_round_branches _ _ _ _ _ _ _ Hrun i p Hp) as [p' [br [Hi Hbr]]].
  exists p'. split; [exact Hi |].
  destruct br; simpl in Hbr.
  - destruct Hbr as [_ ->]. fields. rewrite zero_is_zero. discriminate.
  - destruct Hbr as [_ [v [Hz ->]]]. fields. rewrite Hz. discriminate.
  - destruct Hbr as [_ [v [_ [Hj ->]]]]. fields. intros _.
    rewrite Hj. auto.
  - destruct Hbr as [_ [v [_ [Hj [Hs [Ht ->]]]]]]. fields. intros _.
    rewrite Hj. exists total. split; [exact Hs |].
    apply Z.leb_le in Ht. rewrite Ht. auto.
  - destruct Hbr as [_ [v [_ [Hj [Hs [Ht ->]]]]]]. fields. intros _.
    rewrite Hj. exists total. split; [exact Hs |].
    apply Z.leb_gt in Ht. rewrite Ht. auto.
Qed.

(** C3: the turn of a player whose bankroll is below the ante sets the
    outcome to "Cannot cover ante; skipped." and changes nothing else, reads
    nothing and prints nothing, and the loop goes on with the next player
    from the same world.  In a round that returns such a player ends with
    that outcome, the bankroll unchanged, [ante_paid], [bet] and [payout] at
    their reset value zero, and the four cards dealt. *)
Theorem short_of_ante_is_skipped (max_bet ante : M) :
  (forall p w,
     bankroll p <$ ante = true ->
     play_turn max_bet ante p w
     = (Ok (set_outcome p "Cannot cover ante; skipped."), w))
  /\ (forall p rest w,
        bankroll p <$ ante = true ->
        play_turns max_bet ante (p :: rest) w
        = match play_turns max_bet ante rest w with
          | (Ok rest', w') =>
              (Ok (set_outcome p "Cannot cover ante; skipped." :: rest'), w')
          | (Raise e, w') => (Raise e, w')
          end)
  /\ (forall players players' seed w w',
        play_round players max_bet ante seed w = (Ok players', w') ->
        forall i p,
          nth_error players i = Some p ->
          bankroll p <$ ante = true ->
          exists p',
            nth_error players' i = Some p'
            /\ outcome p' = "Cannot cover ante; skipped."
            /\ name p' = name p
            /\ bankroll p' = bankroll p
            /\ ante_paid p' = zero
            /\ bet p' = zero
            /\ payout p' = zero
            /\ hand p' = dealt_hand seed i
            /\ List.length (hand p') = 4%nat).
Proof.
  assert (Hturn : forall p w,
            bankroll p <$ ante = true ->
            play_turn max_bet ante p w
            = (Ok (set_outcome p "Cannot cover ante; skipped."), w)).
  { intros p w Hlt. rewrite play_turn_eq. now rewrite Hlt. }
  split; [exact Hturn |]. split.
  - intros p rest w Hlt. simpl. unfold bind at 1. rewrite (Hturn p w Hlt).
    unfold bind, ret. destruct (play_turns max_bet ante rest w) as [[rest' | e] w'];
      reflexivity.
  - intros players players' seed w w' Hrun i p Hp Hlt.
    destruct (play_round_turns _ _ _ _ _ _ _ Hrun) as [_ Hturns].
    destruct (Hturns i p Hp) as [Hfour [p' [w1 [w2 [Hi Hrun1]]]]].
    rewrite Hturn in Hrun1 by exact Hlt.
    injection Hrun1 as <- _.
    exists (set_outcome (dealt seed i p) "Cannot cover ante; skipped.").
    split; [exact Hi |]. fields. repeat split; assumption.
Qed.

(** C4, amended: the turn of a player who can cover the ante and whose bet, as
    [prompt_bet] returns it, compares equal to zero ends there, in the world
    [prompt_bet] left: the outcome is "No bet placed; round ended.", nothing is
    printed, scored or credited after the prompt.  In a round that returns
    such a player ends with that outcome, the bet recorded as it was returned
    (a value that compares equal to zero), [payout] zero, [ante_paid] the
    ante, and as bankroll the result of the program's one subtraction
    [start - ante]: the ante is not refunded.  In an exact arithmetic the
    recorded bet is zero itself. *)
Theorem zero_bet_forfeits_ante (max_bet ante : M) :
  (forall p w c v w2,
     bankroll p <$ ante = false ->
     item0 (hand p) = Ok c ->
     prompt_bet (after_ante ante p) max_bet (announced ante p c w) = (Ok v, w2) ->
     v ==$ zero = true ->
     play_turn max_bet ante p w
     = (Ok (set_outcome (set_bet (after_ante ante p) v)
              "No bet placed; round ended."), w2))
  /\ (forall players players' seed w w',
        play_round players max_bet ante seed w = (Ok players', w') ->
        forall i p,
          nth_error players i = Some p ->
          exists p',
            nth_error players' i = Some p'
            /\ (bankroll p <$ ante = false ->
                bet p' ==$ zero = true ->
                outcome p' = "No bet placed; round ended."
                /\ payout p' = zero
                /\ ante_paid p' = ante
                /\ bankroll p' = bankroll p -$ ante
                /\ hand p' = dealt_hand seed i
                /\ (@ExactMoney M _ -> bet p' = zero))).
Proof.
  split.
  - intros p w c v w2 Hge Hc Hv Hz.
    rewrite play_turn_eq, Hge, Hc, Hv, Hz. reflexivity.
  - intros players players' seed w w' Hrun i p Hp.
    destruct (play_round_branches _ _ _ _ _ _ _ Hrun i p Hp) as [p' [br [Hi Hbr]]].
    exists p'. split; [exact Hi |]. intros Hge Hz.
    destruct br; simpl in Hbr.
    + destruct Hbr as [Hlt _]. fields. congruence.
    + destruct Hbr as [_ [v [Hv ->]]]. fields.
      repeat split. intros Hexact. now apply m_eqb_zero.
    + destruct Hbr as [_ [v [Hv [_ ->]]]]. fields. congruence.
    + destruct Hbr as [_ [v [Hv [_ [_ [_ ->]]]]]]. fields. congruence.
    + destruct Hbr as [_ [v [Hv [_ [_ [_ ->]]]]]]. fields. congruence.
Qed.

(** C9: in a round that returns, every player's payout is zero, twice the
    bet or three times the bet; [ante_paid] is zero for a skipped player and
    the ante for every other one; and a payout that is not zero comes with a
    bet that is not zero. *)
Theorem payout_and_ante_values (players players' : list (Player M))
    (max_bet ante : M) (seed : option Z) (w w' : world M) :
  play_round players max_bet ante seed w = (Ok players', w') ->
  forall i p,
    nth_error players i = Some p ->
    exists p',
      nth_error players' i = Some p'
      /\ (payout p' = zero \/ payout p' = bet p' *$ 2 \/ payout p' = bet p' *$ 3)
      /\ (bankroll p <$ ante = true -> ante_paid p' = zero)
      /\ (bankroll p <$ ante = false -> ante_paid p' = ante)
      /\ (payout p' <> zero -> bet p' <> zero).
Proof.
  intros Hrun i p Hp.
  destruct (play_round_branches _ _ _ _ _ _ _ Hrun i p Hp) as [p' [br [Hi Hbr]]].
  exists p'. split; [exact Hi |].
  assert (Hnz : forall v, v ==$ zero = false -> v <> zero).
  { intros v Hv ->. rewrite zero_is_zero in Hv. discriminate. }
  destruct br; simpl in Hbr.
  - destruct Hbr as [Hlt ->]. fields.
    repeat split; auto; try congruence.
  - destruct Hbr as [Hge [v [_ ->]]]. fields.
    repeat split; auto; try congruence.
  - destruct Hbr as [Hge [v [Hv [_ ->]]]]. fields.
    repeat split; auto; try congruence.
  - destruct Hbr as [Hge [v [Hv [_ [_ [_ ->]]]]]]. fields.
    repeat split; auto; try congruence.
  - destruct Hbr as [Hge [v [Hv [_ [_ [_ ->]]]]]]. fields.
    repeat split; auto; try congruence.
Qed.

End Claims.

(** ** When a round raises *)


Section Raises.
Context {M : Type} `{Money M} `{Builtins}.

(** [prompt_bet] returns zero or an amount the bankroll covers, and raises
    nothing but [EOFError]. *)
Lemma prompt_bet_loop_inv (p : Player M) (max_bet : M) (lines : list (entry M)) :
  forall out r w',
    prompt_bet_loop p max_bet lines out = (r, w') ->
    match r with
    | Ok v =>
        v = zero
        \/ (v <$ zero = false /\ max_bet <$ v = false /\ bankroll p <$ v = false)
    | Raise e => e = EOFError
    end.
Proof.
  induction lines as [| raw rest IH]; intros out r w' Hrun; simpl in Hrun.
  - now injection Hrun as <- _.
  - destruct raw as [| | value].
    + injection Hrun as <- _. now left.
    + exact (IH _ _ _ Hrun).
    + destruct (value <$ zero) eqn:Hneg; [exact (IH _ _ _ Hrun) |].
      destruct (max_bet <$ value) eqn:Hmax; [exact (IH _ _ _ Hrun) |].
      destruct (bankroll p <$ value) eqn:Hcover; [exact (IH _ _ _ Hrun) |].
      injection Hrun as <- _. right. auto.
Qed.







End Raises.

(** ** The properties on concrete runs *)

Section Demo.
#[local] Existing Instance Z_money.
#[local] Existing Instance demo_builtins.

Lemma demo_round_eq :
  play_round demo_players 50 5 None demo_world = (Ok demo_result, snd demo_round).
Proof. vm_compute. reflexivity. Qed.

Lemma demo_hand_game_cards :
  Forall game_card
    [mkCard "A" (Some "♠"); mkCard "JOKER" None; mkCard "10" (Some "♥");
     mkCard "K" (Some "♦"); mkCard "7" (Some "♣")].
Proof. repeat constructor; unfold game_card; simpl; tauto. Qed.

Lemma score_hand_sums_non_jokers_witness :
  value (mkCard (str 7) (Some "♣")) = Ok 7
  /\ score_hand
       [mkCard "A" (Some "♠"); mkCard "JOKER" None; mkCard "10" (Some "♥");
        mkCard "K" (Some "♦"); mkCard "7" (Some "♣")]
     = Ok 38
  /\ Forall2 (fun c v => value c = Ok v)
       [mkCard "A" (Some "♠"); mkCard "10" (Some "♥");
        mkCard "K" (Some "♦"); mkCard "7" (Some "♣")]
       [11; 10; 10; 7].
Proof.
  destruct (score_hand_sums_non_jokers demo_builtins_int)
    as [_ [_ [Hnum [_ [Hsum _]]]]].
  split.
  - apply Hnum. lia.
  - exact (Hsum _ demo_hand_game_cards).
Defined.

Lemma bankroll_accounting_witness :
  (exists br,
     turn_took 5 (set_hand (reset_round (mkPlayer "Dee" 3 [] 0 0 "" 0)) [])
       (mkPlayer "Dee" 3 [] 0 0 "Cannot cover ante; skipped." 0) br
     /\ accounted 3 (mkPlayer "Dee" 3 [] 0 0 "Cannot cover ante; skipped." 0) br)
  /\ (exists p' br,
        nth_error demo_result 2 = Some p'
        /\ turn_took 5 (dealt None 2 (mkPlayer "Cy" 200 [] 0 0 "" 0)) p' br
        /\ accounted 200 p' br)
  /\ (exists p',
        nth_error demo_result 2 = Some p'
        /\ bankroll p' = 200 - ante_paid p' - bet p' + payout p')
  /\ (exists p' br,
        nth_error big_result 2 = Some p'
        /\ @accounted float float_money 1e17%float p' br).
Proof.
  destruct (bankroll_accounting 50 5) as [Hturn [Hround Hexact]].
  split; [| split; [| split]].
  - exact (Hturn (mkPlayer "Dee" 3 [] 0 0 "" 0) [] demo_world _ demo_world eq_refl).
  - exact (Hround demo_players demo_result None demo_world (snd demo_round)
             demo_round_eq 2%nat _ eq_refl).
  - exact (Hexact Z_money_exact demo_players demo_result None demo_world
             (snd demo_round) demo_round_eq 2%nat _ eq_refl).
  - destruct (proj1 (proj2 (@bankroll_accounting float float_money demo_builtins
                              50%float 5%float))
                big_players big_result None _ (snd big_round) big_round_eq
                2%nat _ eq_refl) as [p' [br [Hi [_ Hacc]]]].
    now exists p', br.
Defined.

Lemma payout_by_branch_witness :
  (exists p',
     nth_error demo_result 0 = Some p'
     /\ payout p' = bet p' * 3
     /\ bankroll p' = 200 - 5 - bet p' + bet p' * 3
     /\ outcome p' = "Joker! Wins $30.00 (3x bet).")
  /\ (exists p',
        nth_error demo_result 1 = Some p'
        /\ exists total,
             score_hand (hand p') = Ok total
             /\ payout p' = bet p' * 2
             /\ bankroll p' = 200 - 5 - bet p' + bet p' * 2
             /\ outcome p' = "Win! Score 37 pays $40.00 (2x bet).")
  /\ (exists p',
        nth_error demo_result 2 = Some p'
        /\ exists total,
             score_hand (hand p') = Ok total
             /\ payout p' = 0
             /\ bankroll p' = 200 - 5 - bet p'
             /\ outcome p' = "Lose. Score 22 below 32.").
Proof.
  pose proof (payout_by_branch demo_players demo_result 50 5 None
                demo_world (snd demo_round) demo_round_eq) as Hall.
  split; [| split].
  - destruct (Hall 0%nat _ eq_refl) as [p' [Hi Hp]].
    exists p'. split; [exact Hi |].
    injection Hi as <-. exact (Hp eq_refl).
  - destruct (Hall 1%nat _ eq_refl) as [p' [Hi Hp]].
    exists p'. split; [exact Hi |].
    injection Hi as <-. destruct (Hp eq_refl) as [total [Hs Hwin]].
    exists total. split; [exact Hs |].
    injection Hs as <-. exact Hwin.
  - destruct (Hall 2%nat _ eq_refl) as [p' [Hi Hp]].
    exists p'. split; [exact Hi |].
    injection Hi as <-. destruct (Hp eq_refl) as [total [Hs Hlose]].
    exists total. split; [exact Hs |].
    injection Hs as <-. exact Hlose.
Defined.

Lemma short_of_ante_is_skipped_witness :
  play_turn 50 5 (mkPlayer "Dee" 3 [] 0 0 "" 0) demo_world
  = (Ok (mkPlayer "Dee" 3 [] 0 0 "Cannot cover ante; skipped." 0), demo_world)
  /\ exists p',
       nth_error demo_result 3 = Some p'
       /\ outcome p' = "Cannot cover ante; skipped."
       /\ name p' = "Dee"
       /\ bankroll p' = 3
       /\ ante_paid p' = 0
       /\ bet p' = 0
       /\ payout p' = 0
       /\ hand p' = dealt_hand None 3
       /\ List.length (hand p') = 4%nat.
Proof.
  destruct (short_of_ante_is_skipped 50 5) as [Hturn [_ Hround]].
  split.
  - exact (Hturn (mkPlayer "Dee" 3 [] 0 0 "" 0) demo_world eq_refl).
  - exact (Hround demo_players demo_result None demo_world (snd demo_round)
             demo_round_eq 3%nat _ eq_refl eq_refl).
Defined.

Lemma zero_bet_forfeits_ante_witness :
  play_turn 50 5 demo_eve demo_lines
  = (Ok (set_outcome (set_bet (after_ante 5 demo_eve) 0) "No bet placed; round ended."),
     snd (prompt_bet (after_ante 5 demo_eve) 50
            (announced 5 demo_eve (mkCard "Q" (Some "♦")) demo_lines)))
  /\ (exists p',
    nth_error demo_result 4 = Some p'
    /\ outcome p' = "No bet placed; round ended."
    /\ payout p' = 0
    /\ ante_paid p' = 5
    /\ bankroll p' = 200 - 5
    /\ hand p' = dealt_hand None 4
    /\ bet p' = 0)
  /\ (exists p',
        nth_error minus_zero_result 0 = Some p'
        /\ outcome p' = "No bet placed; round ended."
        /\ payout p' = 0%float
        /\ ante_paid p' = 5%float
        /\ bankroll p' = PrimFloat.sub 1e17%float 5%float).
Proof.
  split; [| split].
  { exact (proj1 (zero_bet_forfeits_ante 50 5) demo_eve demo_lines
             (mkCard "Q" (Some "♦")) 0 _ eq_refl eq_refl eq_refl eq_refl). }
  2: { destruct (proj2 (@zero_bet_forfeits_ante float float_money demo_builtins
                          50%float 5%float)
                   [mkPlayer "Ann" 1e17%float [] 0%float 0%float "" 0%float]
                   minus_zero_result None _ (snd minus_zero_round)
                   minus_zero_round_eq 0%nat _ eq_refl) as [p' [Hi Hp]].
       exists p'. split; [exact Hi |].
       injection Hi as <-.
       destruct (Hp eq_refl eq_refl) as [Ho [Hpay [Hante [Hbank _]]]].
       split; [exact Ho |]. split; [exact Hpay |]. split; [exact Hante |].
       exact Hbank. }
  destruct (proj2 (zero_bet_forfeits_ante 50 5) demo_players demo_result None
              demo_world (snd demo_round) demo_round_eq 4%nat _ eq_refl)
    as [p' [Hi Hp]].
  exists p'. split; [exact Hi |].
  injection Hi as <-.
  destruct (Hp eq_refl eq_refl) as [Ho [Hpay [Hante [Hbank [Hhand Hbet]]]]].
  split; [exact Ho |]. split; [exact Hpay |]. split; [exact Hante |].
  split; [exact Hbank |]. split; [exact Hhand |].
  exact (Hbet Z_money_exact).
Defined.

Lemma payout_and_ante_values_witness :
  exists p',
    nth_error demo_result 1 = Some p'
    /\ (payout p' = 0 \/ payout p' = bet p' * 2 \/ payout p' = bet p' * 3)
    /\ ante_paid p' = 5
    /\ bet p' <> 0.
Proof.
  destruct (payout_and_ante_values demo_players demo_result 50 5 None
              demo_world (snd demo_round) demo_round_eq 1%nat _ eq_refl)
    as [p' [Hi [Hpay [_ [Hante Hbet]]]]].
  exists p'. split; [exact Hi |]. split; [exact Hpay |].
  split; [exact (Hante eq_refl) |].
  apply Hbet. injection Hi as <-. discriminate.
Defined.

End Demo.

(** * Further properties of the code *)

(** ** Drawing with a negative count *)

(** [Deck.draw(count)] with [count < 0] never raises: by the slices
    [cards[:count]] and [cards[count:]] it returns the cards of the deck but
    the last [-count] and the deck keeps those; when the deck has fewer than
    [-count] cards it returns none and the deck stays whole. *)
Theorem draw_negative_count (d : Deck) (count : Z) :
  count < 0 ->
  exists drawn rest,
    Deck_draw d count = (Ok drawn, mkDeck rest)
    /\ (drawn ++ rest)%list = cards d
    /\ (- count <= Z.of_nat (List.length (cards d)) ->
        Z.of_nat (List.length rest) = - count)
    /\ (Z.of_nat (List.length (cards d)) <= - count ->
        drawn = [] /\ rest = cards d).
Proof.
  intros Hneg. unfold Deck_draw, slice_to, slice_from, slice_bound.
  destruct (Z.ltb_spec (Z.of_nat (List.length (cards d))) count) as [Hlt | _]; [lia |].
  destruct (Z.ltb_spec count 0) as [_ | Hge]; [| lia].
  eexists _, _. split; [reflexivity |].
  split; [apply firstn_skipn |]. split.
  - intros Hle. rewrite length_skipn. lia.
  - intros Hle.
    replace (Z.to_nat (Z.of_nat (List.length (cards d)) + count)) with 0%nat by lia.
    split; reflexivity.
Qed.

Lemma draw_negative_count_witness :
  exists drawn rest,
    Deck_draw Deck_init (-2) = (Ok drawn, mkDeck rest)
    /\ (drawn ++ rest)%list = cards Deck_init
    /\ Z.of_nat (List.length rest) = 2.
Proof.
  destruct (draw_negative_count Deck_init (-2)) as [drawn [rest [Hd [Hcat [Hlen _]]]]];
    [lia |].
  exists drawn, rest. split; [exact Hd |]. split; [exact Hcat |].
  apply Hlen. simpl. lia.
Defined.

(** ** Scoring: errors, order and bounds *)

Lemma Zsum_app (l1 l2 : list Z) : Zsum (l1 ++ l2) = Zsum l1 + Zsum l2.
Proof. induction l1 as [| x l1 IH]; simpl; [reflexivity | rewrite IH; lia]. Qed.

Section ScoringMore.
Context `{Builtins}.

Lemma value_returns_iff (c : Card) : is_ok (value c) = true <-> readable c.
Proof.
  unfold value, readable, int. simpl.
  destruct (String.eqb_spec (rank c) JOKER) as [Hj | Hj];
    [split; [intros _; left; rewrite Hj; simpl; tauto | reflexivity] |].
  destruct (String.eqb_spec (rank c) "A") as [Ha | Ha];
    [split; [intros _; left; rewrite Ha; simpl; tauto | reflexivity] |].
  destruct (String.eqb_spec (rank c) "K") as [Hk | Hk];
    [split; [intros _; left; rewrite Hk; simpl; tauto | reflexivity] |].
  destruct (String.eqb_spec (rank c) "Q") as [Hq | Hq];
    [split; [intros _; left; rewrite Hq; simpl; tauto | reflexivity] |].
  destruct (String.eqb_spec (rank c) "J") as [Hjack | Hjack];
    [split; [intros _; left; rewrite Hjack; simpl; tauto | reflexivity] |].
  simpl. destruct (py_int (rank c)) as [n |]; simpl; split.
  - intros _. right. now exists n.
  - reflexivity.
  - discriminate.
  - intros [Hin | [n Hn]]; [| discriminate].
    destruct Hin as [E | [E | [E | [E | [E | []]]]]]; symmetry in E; contradiction.
Qed.

Lemma sum_from_returns_iff (l : list Card) :
  forall acc, is_ok (sum_from acc value l) = true <-> Forall readable l.
Proof.
  induction l as [| c l IH]; intros acc; simpl.
  - split; [constructor | reflexivity].
  - pose proof (value_returns_iff c) as Hc.
    destruct (value c) as [v | e]; simpl in Hc.
    + rewrite IH. split.
      * intros Hl. constructor; [now apply Hc | assumption].
      * intros Hl. now inversion Hl.
    + split; [discriminate |].
      intros Hl. inversion Hl as [| ? ? Hr _]; subst.
      apply Hc in Hr. discriminate.
Qed.

Lemma sum_from_raises_at (h1 h2 : list Card) (c : Card) (e : exn) :
  Forall readable h1 -> value c = Raise e ->
  forall acc, sum_from acc value (h1 ++ c :: h2) = Raise e.
Proof.
  intros Hh1 Hc. induction Hh1 as [| d h1 Hd _ IH]; intros acc; simpl.
  - now rewrite Hc.
  - apply value_returns_iff in Hd.
    destruct (value d) as [v | e']; [apply IH | discriminate].
Qed.

(** [score_hand] returns exactly on the hands all of whose cards have a rank
    that is JOKER, A, K, Q, J or a text [int] reads; on any other hand it
    raises what [value()] raises on the first card that has none. *)
Theorem score_hand_returns_iff_readable :
  (forall hand, is_ok (score_hand hand) = true <-> Forall readable hand)
  /\ (forall h1 c h2 e,
        Forall readable h1 -> value c = Raise e ->
        score_hand (h1 ++ c :: h2) = Raise e).
Proof.
  split.
  - intros hand. unfold score_hand. rewrite sum_from_skips_jokers.
    apply sum_from_returns_iff.
  - intros h1 c h2 e Hh1 Hc. unfold score_hand. rewrite sum_from_skips_jokers.
    now apply sum_from_raises_at.
Qed.

(** The value of a card of the game that is no joker lies between 2 and 11. *)
Lemma value_bounds (c : Card) :
  int_reads_ranks -> game_card c -> not_joker c = true ->
  exists v, value c = Ok v /\ 2 <= v <= 11.
Proof.
  intros Hint Hc Hnj. destruct c as [r s].
  destruct (game_card_cases _ Hc) as [Hr | [Hr | [Hr | [n [Hn Hr]]]]]; simpl in Hr.
  - unfold not_joker in Hnj. simpl in Hnj. rewrite Hr in Hnj. discriminate.
  - exists 11. subst r. split; [apply value_ace | lia].
  - exists 10. split; [now apply value_face | lia].
  - exists n. subst r. split; [now apply value_number | lia].
Qed.

Lemma sum_from_bounds (l : list Card) :
  int_reads_ranks -> Forall game_card l -> Forall (fun c => not_joker c = true) l ->
  forall acc,
    exists total,
      sum_from acc value l = Ok total
      /\ acc + 2 * Z.of_nat (List.length l) <= total
         <= acc + 11 * Z.of_nat (List.length l).
Proof.
  intros Hint Hl. induction Hl as [| c l Hc _ IH]; intros Hnj acc.
  - exists acc. simpl. split; [reflexivity | lia].
  - inversion Hnj as [| ? ? Hcj Hlj]; subst.
    destruct (value_bounds c Hint Hc Hcj) as [v [Hv Hb]].
    destruct (IH Hlj (acc + v)) as [total [Ht Hbt]].
    exists total. cbn [sum_from]. rewrite Hv. split; [exact Ht |].
    cbn [List.length]. lia.
Qed.

(** On a hand of cards of the game, [score_hand] lies between twice and eleven
    times the number of its cards that are not jokers: at most 44 on four
    cards, and at least 8 when none of the four is a joker. *)
Theorem score_hand_bounds (hand : list Card) :
  int_reads_ranks -> Forall game_card hand ->
  exists total,
    score_hand hand = Ok total
    /\ 2 * Z.of_nat (List.length (filter not_joker hand)) <= total
       <= 11 * Z.of_nat (List.length (filter not_joker hand))
    /\ total <= 11 * Z.of_nat (List.length hand).
Proof.
  intros Hint Hhand.
  destruct (sum_from_bounds (filter not_joker hand) Hint) with (acc := 0)
    as [total [Ht Hb]].
  - apply Forall_forall. intros c Hc. apply filter_In in Hc.
    rewrite Forall_forall in Hhand. now apply Hhand.
  - apply Forall_forall. intros c Hc. now apply filter_In in Hc.
  - exists total. split; [exact Ht |]. split; [lia |].
    pose proof (filter_length_le not_joker hand). lia.
Qed.

Lemma hand_has_joker_perm (h h' : list Card) :
  Permutation h h' -> hand_has_joker h = hand_has_joker h'.
Proof.
  intros Hp. unfold hand_has_joker.
  induction Hp as [| c l l' _ IH | c d l | l l' l'' _ IH1 _ IH2]; simpl.
  - reflexivity.
  - now rewrite IH.
  - destruct (rank c =? JOKER)%string, (rank d =? JOKER)%string; reflexivity.
  - congruence.
Qed.

Lemma sum_from_perm (h h' : list Card) :
  Permutation h h' -> Forall readable h ->
  forall acc, sum_from acc value h = sum_from acc value h'.
Proof.
  intros Hp. induction Hp as [| c l l' Hp IH | c d l | l l' l'' Hp1 IH1 Hp2 IH2];
    intros Hr acc.
  - reflexivity.
  - inversion Hr; subst. simpl. destruct (value c); [now apply IH | reflexivity].
  - inversion Hr as [| ? ? Hd Hr']; subst. inversion Hr' as [| ? ? Hc _]; subst.
    apply value_returns_iff in Hc, Hd. simpl.
    destruct (value c) as [v |]; [| discriminate].
    destruct (value d) as [u |]; [| discriminate].
    f_equal. lia.
  - rewrite IH1 by assumption. apply IH2.
    apply Forall_forall. intros c Hc. rewrite Forall_forall in Hr.
    apply Hr. now apply (Permutation_in c (Permutation_sym Hp1)).
Qed.

(** The order of the cards in a hand matters neither to [hand_has_joker] nor,
    when [value()] returns on every card, to [score_hand]. *)
Theorem scoring_ignores_card_order (h h' : list Card) :
  Permutation h h' ->
  hand_has_joker h = hand_has_joker h'
  /\ (Forall readable h -> score_hand h = score_hand h').
Proof.
  intros Hp. split; [now apply hand_has_joker_perm |].
  intros Hr. unfold score_hand. rewrite !sum_from_skips_jokers.
  now apply sum_from_perm.
Qed.

End ScoringMore.

(** ** Asking for a bet *)

Section Prompt.
Context {M : Type} `{Money M} `{Builtins}.

Lemma prompt_bet_loop_rejects (p : Player M) (max_bet : M) (raw : entry M)
    (rest : list (entry M)) (out : list string) :
  acceptable p max_bet raw = false ->
  exists complaint,
    prompt_bet_loop p max_bet (raw :: rest) out
    = prompt_bet_loop p max_bet rest
        ((out ++ [bet_prompt p max_bet]) ++ [complaint]).
Proof.
  intros Hrej. destruct raw as [| | v]; simpl in *; [discriminate | eauto |].
  destruct (v <$ zero); [eauto |].
  destruct (max_bet <$ v); [eauto |].
  destruct (bankroll p <$ v); [eauto | discriminate].
Qed.

Lemma prompt_bet_loop_accepts (p : Player M) (max_bet : M) (raw : entry M)
    (rest : list (entry M)) (out : list string) :
  acceptable p max_bet raw = true ->
  prompt_bet_loop p max_bet (raw :: rest) out
  = (Ok (entry_value raw), mkWorld rest (out ++ [bet_prompt p max_bet])).
Proof.
  intros Hacc. destruct raw as [| | v]; simpl in *; [reflexivity | discriminate |].
  destruct (v <$ zero); [discriminate |].
  destruct (max_bet <$ v); [discriminate |].
  destruct (bankroll p <$ v); [discriminate | reflexivity].
Qed.

(** [prompt_bet] reads standard input up to and including the first line it
    accepts and returns the bet of that line, leaving the lines after it; each
    line before it costs one prompt and one complaint.  When no line is
    acceptable it reads them all and raises [EOFError]. *)
Theorem prompt_bet_takes_first_acceptable (p : Player M) (max_bet : M) :
  (forall rejected raw rest out,
     Forall (fun r => acceptable p max_bet r = false) rejected ->
     acceptable p max_bet raw = true ->
     exists printed,
       prompt_bet p max_bet (mkWorld (rejected ++ raw :: rest) out)
       = (Ok (entry_value raw), mkWorld rest (out ++ printed))
       /\ List.length printed = (2 * List.length rejected + 1)%nat)
  /\ (forall lines out,
        Forall (fun r => acceptable p max_bet r = false) lines ->
        exists printed,
          prompt_bet p max_bet (mkWorld lines out)
          = (Raise EOFError, mkWorld [] (out ++ printed))
          /\ List.length printed = (2 * List.length lines + 1)%nat).
Proof.
  unfold prompt_bet. cbn [stdin stdout]. split.
  - intros rejected raw rest out Hrej Hacc. revert out.
    induction Hrej as [| r rejected Hr _ IH]; intros out.
    + exists [bet_prompt p max_bet]. split; [| reflexivity].
      now apply prompt_bet_loop_accepts.
    + destruct (prompt_bet_loop_rejects p max_bet r (rejected ++ raw :: rest) out Hr)
        as [complaint Hstep].
      cbn [app]. rewrite Hstep.
      destruct (IH ((out ++ [bet_prompt p max_bet]) ++ [complaint])%list)
        as [printed [Hrun Hlen]].
      exists (bet_prompt p max_bet :: complaint :: printed).
      split; [| cbn [List.length]; lia].
      rewrite Hrun. rewrite <- !app_assoc. reflexivity.
  - intros lines out Hrej. revert out.
    induction Hrej as [| r lines Hr _ IH]; intros out.
    + exists [bet_prompt p max_bet]. split; reflexivity.
    + destruct (prompt_bet_loop_rejects p max_bet r lines out Hr) as [complaint Hstep].
      rewrite Hstep.
      destruct (IH ((out ++ [bet_prompt p max_bet]) ++ [complaint])%list)
        as [printed [Hrun Hlen]].
      exists (bet_prompt p max_bet :: complaint :: printed).
      split; [| cbn [List.length]; lia].
      rewrite Hrun. rewrite <- !app_assoc. reflexivity.
Qed.

End Prompt.

(** ** The deal *)

Lemma firstn_plus {A} (a b : nat) (l : list A) :
  firstn (a + b) l = (firstn a l ++ firstn b (skipn a l))%list.
Proof.
  rewrite firstn_skipn_comm.
  rewrite <- (firstn_skipn a (firstn (a + b) l)) at 1.
  f_equal. rewrite firstn_firstn. f_equal. lia.
Qed.

Section Deal.
Context {M : Type} `{Money M} `{Builtins}.

Lemma deal_ignores_round_fields (ps1 ps2 : list (Player M)) :
  map reset_round ps1 = map reset_round ps2 ->
  forall deck, deal deck ps1 = deal deck ps2.
Proof.
  revert ps2. induction ps1 as [| p1 ps1 IH]; intros [| p2 ps2] Heq deck;
    try discriminate; [reflexivity |].
  assert (Hp : reset_round p1 = reset_round p2) by (cbn [map] in Heq; congruence).
  assert (Hps : map reset_round ps1 = map reset_round ps2)
    by (cbn [map] in Heq; congruence).
  cbn [deal]. destruct (Deck_draw deck 4) as [[drawn | e] deck1]; [| reflexivity].
  rewrite Hp, (IH ps2 Hps deck1). reflexivity.
Qed.

(** What a round does with the players passed in depends on their names and
    bankrolls and on nothing else they carry: [reset_round] wipes the hand,
    the ante paid, the bet, the outcome and the payout of an earlier round
    before any of them is read.  So two lists of players that agree on names
    and bankrolls come out of the deal alike, whatever the deck, and go
    through the same round when the seed is given (with no seed two runs
    shuffle differently). *)
Theorem round_ignores_earlier_round (ps1 ps2 : list (Player M))
    (max_bet ante : M) :
  map (@name M) ps1 = map (@name M) ps2 ->
  map (@bankroll M) ps1 = map (@bankroll M) ps2 ->
  (forall deck, deal deck ps1 = deal deck ps2)
  /\ (forall s w,
        play_round ps1 max_bet ante (Some s) w
        = play_round ps2 max_bet ante (Some s) w).
Proof.
  intros Hn Hb.
  assert (Hreset : map reset_round ps1 = map reset_round ps2).
  { revert ps2 Hn Hb. induction ps1 as [| p1 ps1 IH]; intros [| p2 ps2] Hn Hb;
      try discriminate; [reflexivity |].
    cbn [map] in *. injection Hn as Hn1 Hn. injection Hb as Hb1 Hb.
    unfold reset_round at 1 3. rewrite Hn1, Hb1, (IH ps2 Hn Hb). reflexivity. }
  split.
  - intros deck. now apply deal_ignores_round_fields.
  - intros s w. unfold play_round.
    now rewrite (deal_ignores_round_fields ps1 ps2 Hreset).
Qed.

Lemma deal_runs_short (players : list (Player M)) :
  forall deck,
    (List.length (cards deck) < 4 * List.length players)%nat ->
    fst (deal deck players) = Raise (ValueError "Not enough cards to draw").
Proof.
  induction players as [| q rest IH]; intros deck Hlen; cbn [deal List.length] in *.
  - lia.
  - destruct (Z.ltb_spec (Z.of_nat (List.length (cards deck))) 4) as [Hshort | Hlong].
    + now rewrite Deck_draw_raises.
    + rewrite Deck_draw_in_range by lia.
      specialize (IH (mkDeck (skipn (Z.to_nat 4) (cards deck)))).
      destruct (deal _ rest) as [[ps | e] d].
      * cbn [fst] in IH. cbn [cards] in IH. rewrite length_skipn in IH.
        assert (Habs : @Ok (list (Player M)) ps = Raise (ValueError "Not enough cards to draw"))
          by (apply IH; lia).
        discriminate.
      * cbn [fst] in *. apply IH. cbn [cards]. rewrite length_skipn. lia.
Qed.

(** With more than thirteen players the deal runs out of cards: [play_round]
    raises [ValueError("Not enough cards to draw")] before any turn, having read
    and printed nothing. *)
Theorem round_of_too_many_players (players : list (Player M)) (max_bet ante : M)
    (seed : option Z) (w : world M) :
  shuffle_permutes ->
  (13 < List.length players)%nat ->
  play_round players max_bet ante seed w
  = (Raise (ValueError "Not enough cards to draw"), w).
Proof.
  intros Hperm Hlen. unfold play_round, bind, lift.
  rewrite deal_runs_short; [reflexivity |].
  unfold Deck_shuffle. cbn [cards].
  rewrite <- (Permutation_length (Hperm seed (cards Deck_init))).
  change (List.length (cards Deck_init)) with 54%nat. lia.
Qed.

Lemma deal_hands (players : list (Player M)) :
  forall deck deck' ps,
    deal deck players = (Ok ps, deck') ->
    map (@name M) ps = map (@name M) players
    /\ map (@bankroll M) ps = map (@bankroll M) players
    /\ List.concat (map (@hand M) ps) = firstn (4 * List.length players) (cards deck)
    /\ cards deck' = skipn (4 * List.length players) (cards deck).
Proof.
  induction players as [| q rest IH]; intros deck deck' ps Hdeal; cbn [deal] in Hdeal.
  - injection Hdeal as <- <-. repeat split.
  - destruct (Z.ltb_spec (Z.of_nat (List.length (cards deck))) 4) as [Hshort | Hlong].
    { rewrite Deck_draw_raises in Hdeal by assumption. discriminate. }
    rewrite Deck_draw_in_range in Hdeal by lia.
    destruct (deal _ rest) as [[ps' | e] d2] eqn:Hrest; [| discriminate].
    injection Hdeal as <- <-.
    destruct (IH _ _ _ Hrest) as [Hn [Hb [Hh Hd]]]. cbn [cards] in Hh, Hd.
    cbn [map List.concat name bankroll hand set_hand reset_round List.length app].
    rewrite Hn, Hb, Hh, Hd, skipn_skipn.
    replace (4 * S (List.length rest))%nat
      with (Z.to_nat 4 + 4 * List.length rest)%nat by lia.
    repeat split.
    + symmetry. exact (firstn_plus (Z.to_nat 4) (4 * List.length rest) (cards deck)).
    + f_equal. lia.
Qed.

Lemma play_turns_keep (max_bet ante : M) (ps : list (Player M)) :
  forall w w' ps',
    play_turns max_bet ante ps w = (Ok ps', w') ->
    map (@name M) ps' = map (@name M) ps /\ map (@hand M) ps' = map (@hand M) ps.
Proof.
  induction ps as [| q rest IH]; intros w w' ps' Hrun; simpl in Hrun.
  - injection Hrun as <- _. now split.
  - unfold bind, ret in Hrun.
    destruct (play_turn max_bet ante q w) as [[q' | e] w1] eqn:Hq; [| discriminate].
    destruct (play_turns max_bet ante rest w1) as [[rest' | e] w2] eqn:Hrest;
      [| discriminate].
    injection Hrun as <- _.
    destruct (IH _ _ _ Hrest) as [Hn Hh].
    destruct (play_turn_branch _ _ _ _ _ _ Hq) as [br Hbr].
    assert (Hq' : name q' = name q /\ hand q' = hand q).
    { destruct br; simpl in Hbr.
      - destruct Hbr as [_ ->]. now split.
      - destruct Hbr as [_ [v [_ ->]]]. now split.
      - destruct Hbr as [_ [v [_ [_ ->]]]]. now split.
      - destruct Hbr as [_ [v [_ [_ [_ [_ ->]]]]]]. now split.
      - destruct Hbr as [_ [v [_ [_ [_ [_ ->]]]]]]. now split. }
    destruct Hq' as [Hqn Hqh]. cbn [map]. now rewrite Hn, Hh, Hqn, Hqh.
Qed.

Lemma play_round_hands (players players' : list (Player M)) (max_bet ante : M)
    (seed : option Z) (w w' : world M) :
  play_round players max_bet ante seed w = (Ok players', w') ->
  map (@name M) players' = map (@name M) players
  /\ List.concat (map (@hand M) players')
     = firstn (4 * List.length players) (cards (Deck_shuffle Deck_init seed)).
Proof.
  unfold play_round, bind, lift. intros Hrun.
  destruct (deal (Deck_shuffle Deck_init seed) players) as [[ps | e] d] eqn:Hdeal;
    cbn [fst] in Hrun; [| discriminate].
  destruct (deal_hands _ _ _ _ Hdeal) as [Hn [_ [Hh _]]].
  destruct (play_turns_keep _ _ _ _ _ _ Hrun) as [Hn' Hh'].
  split; [congruence |]. now rewrite Hh'.
Qed.

(** A round that returns hands back the same players in the same order, and
    their hands, put end to end, are the top of the shuffled deck, four cards
    to a player: no position of the deck is dealt twice. *)
Theorem round_deals_from_the_top (players players' : list (Player M))
    (max_bet ante : M) (seed : option Z) (w w' : world M) :
  play_round players max_bet ante seed w = (Ok players', w') ->
  map (@name M) players' = map (@name M) players
  /\ List.concat (map (@hand M) players')
     = firstn (4 * List.length players) (cards (Deck_shuffle Deck_init seed)).
Proof. apply play_round_hands. Qed.

Lemma count_jokers_perm (l l' : list Card) :
  Permutation l l' -> count_jokers l = count_jokers l'.
Proof.
  unfold count_jokers.
  induction 1 as [| c l l' _ IH | c d l | l l' l'' _ IH1 _ IH2]; simpl.
  - reflexivity.
  - destruct (rank c =? JOKER)%string; simpl; now rewrite IH.
  - destruct (rank c =? JOKER)%string, (rank d =? JOKER)%string; reflexivity.
  - congruence.
Qed.

Lemma count_jokers_firstn (n : nat) (l : list Card) :
  (count_jokers (firstn n l) <= count_jokers l)%nat.
Proof.
  unfold count_jokers. rewrite <- (firstn_skipn n l) at 2.
  rewrite filter_app, length_app. lia.
Qed.

(** With a shuffle that permutes, the hands of a round that returns hold at
    most two jokers between them. *)
Theorem round_deals_at_most_two_jokers (players players' : list (Player M))
    (max_bet ante : M) (seed : option Z) (w w' : world M) :
  shuffle_permutes ->
  play_round players max_bet ante seed w = (Ok players', w') ->
  (count_jokers (List.concat (map (@hand M) players')) <= 2)%nat.
Proof.
  intros Hperm Hrun.
  destruct (play_round_hands _ _ _ _ _ _ _ Hrun) as [_ ->].
  etransitivity; [apply count_jokers_firstn |].
  unfold Deck_shuffle. cbn [cards].
  rewrite <- (count_jokers_perm _ _ (Hperm seed (cards Deck_init))).
  reflexivity.
Qed.

End Deal.

(** ** Bets and bankrolls of a round *)

Section Bets.
Context {M : Type} `{Money M} `{Builtins}.

Lemma play_turn_bet (max_bet ante : M) (p p' : Player M) (w w' : world M) :
  play_turn max_bet ante p w = (Ok p', w') ->
  bet p = zero ->
  bet p' = zero
  \/ (bet p' <$ zero = false
      /\ max_bet <$ bet p' = false
      /\ (bankroll p -$ ante) <$ bet p' = false).
Proof.
  intros Hrun Hreset.
  destruct (play_turn_inv _ _ _ _ _ _ Hrun)
    as [[_ [-> _]] | [_ [c [v [w2 [_ [Hv [[Hz [-> _]] | [Hz [_ [w3 [Hs _]]]]]]]]]]]].
  - left. exact Hreset.
  - pose proof (prompt_bet_loop_inv _ _ _ _ _ _ Hv) as Hbet. simpl in Hbet.
    fields. destruct Hbet as [-> | Hbounds]; [now left | right; exact Hbounds].
  - pose proof (prompt_bet_loop_inv _ _ _ _ _ _ Hv) as Hbet. simpl in Hbet.
    assert (Hp' : bet p' = v).
    { destruct (settle_inv _ _ _ _ Hs)
        as [[_ [-> _]] | [_ [total [_ [_ [[_ ->] | [_ ->]]]]]]]; reflexivity. }
    rewrite Hp'. destruct Hbet as [-> | Hbounds]; [now left | right; exact Hbounds].
Qed.

(** In a round that returns, the bet recorded for a player is zero, or it is
    not negative and exceeds neither the maximum bet nor what the player had
    left once the ante was paid. *)
Theorem recorded_bet_within_bounds (players players' : list (Player M))
    (max_bet ante : M) (seed : option Z) (w w' : world M) :
  play_round players max_bet ante seed w = (Ok players', w') ->
  forall i p,
    nth_error players i = Some p ->
    exists p',
      nth_error players' i = Some p'
      /\ (bet p' = zero
          \/ (bet p' <$ zero = false
              /\ max_bet <$ bet p' = false
              /\ (bankroll p -$ ante) <$ bet p' = false)).
Proof.
  intros Hrun i p Hp.
  destruct (play_round_turns _ _ _ _ _ _ _ Hrun) as [_ Hturns].
  destruct (Hturns i p Hp) as [_ [p' [w1 [w2 [Hi Hturn]]]]].
  exists p'. split; [exact Hi |].
  exact (play_turn_bet _ _ _ _ _ _ Hturn eq_refl).
Qed.

Section NonNegative.
Context {order : @MoneyOrder M _}.

Lemma play_turn_nonneg (max_bet ante : M) (p p' : Player M) (w w' : world M) :
  play_turn max_bet ante p w = (Ok p', w') ->
  (bankroll p <$ ante = false \/ bankroll p <$ zero = false) ->
  bankroll p' <$ zero = false.
Proof.
  intros Hrun Hstart.
  destruct (play_turn_inv _ _ _ _ _ _ Hrun)
    as [[Hlt [-> _]] | [Hge [c [v [w2 [_ [Hv [[Hz [-> _]] | [Hz [Hcover [w3 [Hs _]]]]]]]]]]]].
  - fields. destruct Hstart as [Hge | Hnn]; [congruence | exact Hnn].
  - fields. now apply m_sub_nonneg.
  - pose proof (prompt_bet_loop_inv _ _ _ _ _ _ Hv) as Hbet. simpl in Hbet.
    assert (Hv0 : v <$ zero = false).
    { destruct Hbet as [-> | [Hv0 _]]; [| exact Hv0].
      rewrite zero_is_zero in Hz. discriminate. }
    assert (Hpaid : (bankroll p -$ ante -$ v) <$ zero = false)
      by (apply m_sub_nonneg; exact Hcover).
    destruct (settle_inv _ _ _ _ Hs)
      as [[_ [-> _]] | [_ [total [_ [_ [[_ ->] | [_ ->]]]]]]]; fields.
    + apply m_add_nonneg; [exact Hpaid | apply m_mul_nonneg; [lia | exact Hv0]].
    + apply m_add_nonneg; [exact Hpaid | apply m_mul_nonneg; [lia | exact Hv0]].
    + exact Hpaid.
Qed.

(** In a round that returns, a player who paid the ante ends with a bankroll
    that is not negative, and so does a skipped player whose bankroll was not
    negative at the start: [pay] never takes more than there is. *)
Theorem bankroll_stays_nonnegative (players players' : list (Player M))
    (max_bet ante : M) (seed : option Z) (w w' : world M) :
  play_round players max_bet ante seed w = (Ok players', w') ->
  forall i p,
    nth_error players i = Some p ->
    exists p',
      nth_error players' i = Some p'
      /\ (bankroll p <$ ante = false \/ bankroll p <$ zero = false ->
          bankroll p' <$ zero = false).
Proof.
  intros Hrun i p Hp.
  destruct (play_round_turns _ _ _ _ _ _ _ Hrun) as [_ Hturns].
  destruct (Hturns i p Hp) as [_ [p' [w1 [w2 [Hi Hturn]]]]].
  exists p'. split; [exact Hi |]. intros Hstart.
  exact (play_turn_nonneg _ _ _ _ _ _ Hturn Hstart).
Qed.

End NonNegative.
End Bets.

(** ** Input and output of a round *)

Section Worlds.
Context {M : Type} `{Money M} `{Builtins}.

Lemma comes_after_refl (w : world M) : comes_after w w.
Proof. split; [now exists [] | exists []; now rewrite app_nil_r]. Qed.

Lemma comes_after_trans (w1 w2 w3 : world M) :
  comes_after w1 w2 -> comes_after w2 w3 -> comes_after w1 w3.
Proof.
  intros [[c1 Hc1] [p1 Hp1]] [[c2 Hc2] [p2 Hp2]]. split.
  - exists (c1 ++ c2)%list. now rewrite Hc1, Hc2, app_assoc.
  - exists (p1 ++ p2)%list. now rewrite Hp2, Hp1, app_assoc.
Qed.

Lemma comes_after_print (w : world M) (text : string) :
  comes_after w (mkWorld (stdin w) (stdout w ++ [text])).
Proof. split; [now exists [] | now exists [text]]. Qed.

Lemma comes_after_prints (w : world M) (t1 t2 : string) :
  comes_after w (mkWorld (stdin w) ((stdout w ++ [t1]) ++ [t2])).
Proof. split; [now exists [] | exists [t1; t2]; now rewrite <- app_assoc]. Qed.

Lemma prompt_bet_loop_comes_after (p : Player M) (max_bet : M) (lines : list (entry M)) :
  forall out r w',
    prompt_bet_loop p max_bet lines out = (r, w') ->
    comes_after (mkWorld lines out) w'.
Proof.
  induction lines as [| raw rest IH]; intros out r w' Hrun; simpl in Hrun.
  - injection Hrun as _ <-. split; [now exists [] | now eexists].
  - assert (Hread : forall complaint,
              comes_after (mkWorld (raw :: rest) out)
                (mkWorld rest ((out ++ [bet_prompt p max_bet]) ++ [complaint]))).
    { intros complaint. split; [now exists [raw] |].
      exists [bet_prompt p max_bet; complaint]. cbn [stdout].
      now rewrite <- app_assoc. }
    assert (Htake : comes_after (mkWorld (raw :: rest) out)
                      (mkWorld rest (out ++ [bet_prompt p max_bet]))).
    { split; [now exists [raw] | now eexists]. }
    destruct raw as [| | v].
    + injection Hrun as _ <-. exact Htake.
    + exact (comes_after_trans _ _ _ (Hread _) (IH _ _ _ Hrun)).
    + destruct (v <$ zero);
        [exact (comes_after_trans _ _ _ (Hread _) (IH _ _ _ Hrun)) |].
      destruct (max_bet <$ v);
        [exact (comes_after_trans _ _ _ (Hread _) (IH _ _ _ Hrun)) |].
      destruct (bankroll p <$ v);
        [exact (comes_after_trans _ _ _ (Hread _) (IH _ _ _ Hrun)) |].
      injection Hrun as _ <-. exact Htake.
Qed.

Lemma settle_comes_after (q : Player M) (w w' : world M) (r : result (Player M)) :
  settle q w = (r, w') -> comes_after w w'.
Proof.
  unfold settle. destruct (hand_has_joker (hand q)).
  - unfold ret. intros [= _ <-]. apply comes_after_refl.
  - unfold bind, lift, print, ret.
    destruct (score_hand (hand q)) as [total | e].
    + destruct (32 <=? total); intros [= _ <-]; apply comes_after_print.
    + intros [= _ <-]. apply comes_after_refl.
Qed.

Lemma play_turn_comes_after (max_bet ante : M) (p : Player M) (w w' : world M)
    (r : result (Player M)) :
  play_turn max_bet ante p w = (r, w') -> comes_after w w'.
Proof.
  rewrite play_turn_eq.
  destruct (bankroll p <$ ante).
  { intros [= _ <-]. apply comes_after_refl. }
  destruct (item0 (hand p)) as [c | e].
  2: { intros [= _ <-]. apply comes_after_print. }
  assert (Hann : comes_after w (announced ante p c w)) by apply comes_after_prints.
  destruct (prompt_bet _ max_bet _) as [[v | e] w2] eqn:Hv;
    pose proof (prompt_bet_loop_comes_after _ _ _ _ _ _ Hv) as Hprompt;
    assert (Hw2 : comes_after w w2)
      by (apply (comes_after_trans _ _ _ Hann); destruct (announced ante p c w);
          exact Hprompt).
  2: { intros [= _ <-]. exact Hw2. }
  destruct (v ==$ zero); [intros [= _ <-]; exact Hw2 |].
  destruct (bankroll (after_ante ante p) <$ v); [intros [= _ <-]; exact Hw2 |].
  assert (Hrev : comes_after w2 (revealed ante v p w2)) by apply comes_after_prints.
  destruct (settle _ _) as [[q | e] w3] eqn:Hs;
    pose proof (settle_comes_after _ _ _ _ Hs) as Hsettle;
    intros [= _ <-];
    apply (comes_after_trans _ _ _ Hw2), (comes_after_trans _ _ _ Hrev).
  - apply (comes_after_trans _ _ _ Hsettle). apply comes_after_prints.
  - exact Hsettle.
Qed.

Lemma play_turns_come_after (max_bet ante : M) (ps : list (Player M)) :
  forall w w' r, play_turns max_bet ante ps w = (r, w') -> comes_after w w'.
Proof.
  induction ps as [| q rest IH]; intros w w' r Hrun; simpl in Hrun.
  - injection Hrun as _ <-. apply comes_after_refl.
  - unfold bind, ret in Hrun.
    destruct (play_turn max_bet ante q w) as [[q' | e] w1] eqn:Hq;
      pose proof (play_turn_comes_after _ _ _ _ _ _ Hq) as Hfirst.
    + destruct (play_turns max_bet ante rest w1) as [[rest' | e] w2] eqn:Hrest;
        pose proof (IH _ _ _ Hrest) as Hothers;
        injection Hrun as _ <-; exact (comes_after_trans _ _ _ Hfirst Hothers).
    + injection Hrun as _ <-. exact Hfirst.
Qed.

(** Whether it returns or raises, a round reads standard input from the front
    and in order, and only adds to what was printed: the lines it leaves are a
    suffix of those it found, and the output it found is a prefix of the one it
    leaves. *)
Theorem round_reads_ahead_and_appends (players : list (Player M)) (max_bet ante : M)
    (seed : option Z) (w w' : world M) (r : result (list (Player M))) :
  play_round players max_bet ante seed w = (r, w') ->
  (exists consumed, stdin w = (consumed ++ stdin w')%list)
  /\ (exists printed, stdout w' = (stdout w ++ printed)%list).
Proof.
  unfold play_round, bind, lift.
  destruct (fst (deal (Deck_shuffle Deck_init seed) players)) as [ps | e].
  - intros Hrun. exact (play_turns_come_after _ _ _ _ _ _ Hrun).
  - intros [= _ <-]. apply comes_after_refl.
Qed.

End Worlds.

(** ** The program *)

Section ProgramProperties.
Context {M : Type} `{Money M} `{Builtins}.

Lemma turn_took_outcome (ante : M) (p p' : Player M) (br : branch) :
  turn_took ante p p' br -> (outcome p' =? "")%string = false.
Proof.
  destruct br; simpl.
  - intros [_ ->]. reflexivity.
  - intros [_ [v [_ ->]]]. reflexivity.
  - intros [_ [v [_ [_ ->]]]]. reflexivity.
  - intros [_ [v [_ [_ [_ [_ ->]]]]]]. reflexivity.
  - intros [_ [v [_ [_ [_ [_ ->]]]]]]. reflexivity.
Qed.

Lemma play_turns_outcomes (max_bet ante : M) (ps : list (Player M)) :
  forall w w' ps',
    play_turns max_bet ante ps w = (Ok ps', w') ->
    Forall (fun p' => (outcome p' =? "")%string = false) ps'.
Proof.
  induction ps as [| q rest IH]; intros w w' ps' Hrun; simpl in Hrun.
  - injection Hrun as <- _. constructor.
  - unfold bind, ret in Hrun.
    destruct (play_turn max_bet ante q w) as [[q' | e] w1] eqn:Hq; [| discriminate].
    destruct (play_turns max_bet ante rest w1) as [[rest' | e] w2] eqn:Hrest;
      [| discriminate].
    injection Hrun as <- _. constructor; [| exact (IH _ _ _ Hrest)].
    destruct (play_turn_branch _ _ _ _ _ _ Hq) as [br Hbr].
    exact (turn_took_outcome _ _ _ _ Hbr).
Qed.

Lemma print_summary_spec (ps : list (Player M)) :
  forall w,
    Forall (fun p' => (outcome p' =? "")%string = false) ps ->
    print_summary ps w
    = (Ok tt, mkWorld (stdin w) (stdout w ++ map summary_with_outcome ps)).
Proof.
  induction ps as [| p ps IH]; intros w Hps; simpl.
  - unfold ret. rewrite app_nil_r. now destruct w.
  - inversion Hps as [| ? ? Hp Hrest]; subst.
    unfold bind, print. rewrite (IH _ Hrest). cbn [stdin stdout].
    unfold summary_line. rewrite Hp. fold (summary_with_outcome p).
    now rewrite <- app_assoc.
Qed.

(** [main] raises what the round raises, and then prints no summary; after a
    round that returns it prints the heading and one line for each player, in
    order, with the outcome the round set: the text "Skipped" that stands in
    for an empty outcome is never printed, since every branch of a turn sets
    one. *)
Theorem main_prints_summary (times_0_10 : M -> M) (args : Args M) (w : world M) :
  main times_0_10 args w
  = match
      play_round
        (map (fun p => mkPlayer p (arg_bankroll args) [] zero zero "" zero)
             (arg_players args))
        (arg_max_bet args)
        (match arg_ante args with
         | Some ante => ante
         | None => times_0_10 (arg_max_bet args)
         end)
        (arg_seed args) w
    with
    | (Ok players, w') =>
        (Ok tt,
         mkWorld (stdin w')
           ((stdout w' ++ [newline ++ "Round summary:"])
            ++ map summary_with_outcome players))
    | (Raise e, w') => (Raise e, w')
    end.
Proof.
  unfold main. unfold bind at 1.
  destruct (play_round _ _ _ _ w) as [[players | e] w'] eqn:Hrun; [| reflexivity].
  unfold bind, print. rewrite print_summary_spec; [reflexivity |].
  unfold play_round, bind, lift in Hrun.
  destruct (fst (deal _ _)) as [ps | e]; [| discriminate].
  exact (play_turns_outcomes _ _ _ _ _ _ Hrun).
Qed.

End ProgramProperties.

(** ** The further properties on concrete runs *)

Lemma demo_builtins_shuffle : @shuffle_permutes demo_builtins.
Proof. intros seed l. apply Permutation_rev. Qed.

Section MoreDemo.
#[local] Existing Instance Z_money.
#[local] Existing Instance demo_builtins.

Lemma score_hand_returns_iff_readable_witness :
  score_hand ([mkCard "A" (Some "♠")] ++ mkCard "X" None :: [mkCard "K" (Some "♦")])
  = Raise (ValueError "invalid literal for int() with base 10: 'X'").
Proof.
  apply (proj2 score_hand_returns_iff_readable).
  - constructor; [| constructor]. left. simpl. tauto.
  - reflexivity.
Defined.

Lemma score_hand_bounds_witness :
  exists total,
    score_hand
      [mkCard "A" (Some "♠"); mkCard "JOKER" None; mkCard "10" (Some "♥");
       mkCard "K" (Some "♦"); mkCard "7" (Some "♣")]
    = Ok total
    /\ 2 * 4 <= total <= 11 * 4.
Proof.
  destruct (score_hand_bounds _ demo_builtins_int demo_hand_game_cards)
    as [total [Ht [Hb _]]].
  exists total. split; [exact Ht | exact Hb].
Defined.

Lemma scoring_ignores_card_order_witness :
  hand_has_joker [mkCard "A" (Some "♠"); mkCard "JOKER" None]
  = hand_has_joker [mkCard "JOKER" None; mkCard "A" (Some "♠")]
  /\ score_hand [mkCard "A" (Some "♠"); mkCard "JOKER" None]
     = score_hand [mkCard "JOKER" None; mkCard "A" (Some "♠")].
Proof.
  destruct (scoring_ignores_card_order
              [mkCard "A" (Some "♠"); mkCard "JOKER" None]
              [mkCard "JOKER" None; mkCard "A" (Some "♠")]
              (perm_swap _ _ _)) as [Hj Hs].
  split; [exact Hj |]. apply Hs.
  repeat constructor; left; simpl; tauto.
Defined.

Lemma prompt_bet_takes_first_acceptable_witness :
  (exists printed,
     prompt_bet demo_eve 50 (mkWorld [Invalid; Amount 500; Amount 25; Amount 1] [])
     = (Ok 25, mkWorld [Amount 1] ([] ++ printed))
     /\ List.length printed = 5%nat)
  /\ (exists printed,
        prompt_bet demo_eve 50 (mkWorld [Invalid; Amount (-3)] [])
        = (Raise EOFError, mkWorld [] ([] ++ printed))
        /\ List.length printed = 5%nat).
Proof.
  destruct (prompt_bet_takes_first_acceptable demo_eve 50) as [Hfirst Hnone].
  split.
  - apply (Hfirst [Invalid; Amount 500] (Amount 25) [Amount 1] []).
    + repeat constructor.
    + reflexivity.
  - apply (Hnone [Invalid; Amount (-3)] []). repeat constructor.
Defined.

Lemma round_ignores_earlier_round_witness :
  deal Deck_init demo_players_used = deal Deck_init demo_players
  /\ play_round demo_players_used 50 5 (Some 1234) demo_world
     = play_round demo_players 50 5 (Some 1234) demo_world.
Proof.
  destruct (round_ignores_earlier_round demo_players_used demo_players 50 5
              eq_refl eq_refl) as [Hdeal Hround].
  split; [exact (Hdeal Deck_init) | exact (Hround 1234 demo_world)].
Defined.

Lemma round_of_too_many_players_witness :
  play_round fourteen_players 50 5 None demo_world
  = (Raise (ValueError "Not enough cards to draw"), demo_world).
Proof.
  apply round_of_too_many_players; [exact demo_builtins_shuffle | simpl; lia].
Defined.

Lemma round_deals_from_the_top_witness :
  map (@name Z) demo_result = map (@name Z) demo_players
  /\ List.concat (map (@hand Z) demo_result)
     = firstn (4 * 5) (cards (Deck_shuffle Deck_init None)).
Proof.
  exact (round_deals_from_the_top demo_players demo_result 50 5 None demo_world
           (snd demo_round) demo_round_eq).
Defined.

Lemma round_deals_at_most_two_jokers_witness :
  (count_jokers (List.concat (map (@hand Z) demo_result)) <= 2)%nat.
Proof.
  exact (round_deals_at_most_two_jokers demo_players demo_result 50 5 None demo_world
           (snd demo_round) demo_builtins_shuffle demo_round_eq).
Defined.

Lemma recorded_bet_within_bounds_witness :
  exists p',
    nth_error demo_result 1 = Some p'
    /\ (bet p' = 0
        \/ ((bet p' <? 0) = false
            /\ (50 <? bet p') = false
            /\ (200 - 5 <? bet p') = false)).
Proof.
  exact (recorded_bet_within_bounds demo_players demo_result 50 5 None demo_world
           (snd demo_round) demo_round_eq 1%nat _ eq_refl).
Defined.

Lemma bankroll_stays_nonnegative_witness :
  exists p',
    nth_error demo_result 2 = Some p' /\ (bankroll p' <? 0) = false.
Proof.
  destruct (@bankroll_stays_nonnegative Z Z_money demo_builtins Z_money_order
              demo_players demo_result 50 5 None demo_world
              (snd demo_round) demo_round_eq 2%nat _ eq_refl) as [p' [Hi Hp]].
  exists p'. split; [exact Hi |]. apply Hp. left. reflexivity.
Defined.

Lemma round_reads_ahead_and_appends_witness :
  (exists consumed, stdin demo_world = (consumed ++ stdin (snd demo_round))%list)
  /\ (exists printed,
        stdout (snd demo_round) = (stdout demo_world ++ printed)%list).
Proof.
  exact (round_reads_ahead_and_appends demo_players 50 5 None demo_world
           (snd demo_round) (Ok demo_result) demo_round_eq).
Defined.


End MoreDemo.
